(** * DriveAIios / temp_icons / generate_icons.py

    A shallow embedding of the icon generator script and the proofs of
    its specification.

    The script works with Python [int]s and Python [float]s.  Integers are
    [Z].  A Python float is an IEEE 754 binary64 number; it is modelled by
    the [spec_float] type of the standard library with precision 53 and
    maximal exponent 1024, and the arithmetic by [SFmul], [SFadd], [SFsub]
    and [SFdiv], which round to nearest, ties to even, as the hardware
    does.  Pillow is outside of the script: its calls are recorded in the
    image as a list of drawing operations. *)

From Stdlib Require Import ZArith Lia List String DecimalString Bool Reals Lra.
From Stdlib Require Import SpecFloat PrimFloat FloatOps.
Import ListNotations.

Local Open Scope Z_scope.

(** ** Exceptions and the result of a computation *)

Inductive exn : Type :=
| ZeroDivisionError
| OverflowError
| ValueError
| IOError.

Inductive result (A : Type) : Type :=
| Ok (a : A)
| Raise (e : exn).

Arguments Ok {A} a.
Arguments Raise {A} e.

Definition bind {A B : Type} (c : result A) (k : A -> result B) : result B :=
  match c with
  | Ok a => k a
  | Raise e => Raise e
  end.

Notation "x <- c ;; k" := (bind c (fun x => k))
  (at level 61, c at next level, right associativity).

(** A [for] statement whose body may raise. *)
Fixpoint for_each {S A : Type} (body : S -> A -> result S) (l : list A) (s : S)
  : result S :=
  match l with
  | [] => Ok s
  | a :: l' => s' <- body s a ;; for_each body l' s'
  end.

(** ** Python floats *)

Module Py.

Definition prec : Z := 53.
Definition emax : Z := 1024.

Definition float : Type := spec_float.

Definition fmul : float -> float -> float := SFmul prec emax.
Definition fadd : float -> float -> float := SFadd prec emax.
Definition fsub : float -> float -> float := SFsub prec emax.
Definition fltb : float -> float -> bool := SFltb.
Definition fleb : float -> float -> bool := SFleb.

(** [float(n)] for an integer operand of a mixed operation: the nearest
    binary64 number.  Python raises [OverflowError] on an integer beyond
    the largest float where this gives an infinity; in the script such an
    operand only reaches [int], which raises [OverflowError] on it. *)
Definition of_int (n : Z) : float := binary_normalize prec emax n 0 false.

(** The literals [0.5] and [0.7] of the script. *)
Definition lit_0_5 : float := S754_finite false 4503599627370496 (-53).
Definition lit_0_7 : float := S754_finite false 6305039478318694 (-53).

(** [int(x)]: truncation toward zero; [ValueError] on a NaN and
    [OverflowError] on an infinity. *)
Definition int (x : float) : result Z :=
  match x with
  | S754_zero _ => Ok 0
  | S754_finite s m e => Ok (cond_Zopp s (Z.shiftl (Zpos m) e))
  | S754_infinity _ => Raise OverflowError
  | S754_nan => Raise ValueError
  end.

(** An integer as an exact numerator or denominator of [/]. *)
Definition raw_int (n : Z) : float :=
  match n with
  | Z0 => S754_zero false
  | Zpos p => S754_finite false p 0
  | Zneg p => S754_finite true p 0
  end.

(** [a / b] on two integers: the correctly rounded quotient. *)
Definition truediv (a b : Z) : result float :=
  if Z.eqb b 0 then Raise ZeroDivisionError
  else
    match SFdiv prec emax (raw_int a) (raw_int b) with
    | S754_infinity _ => Raise OverflowError
    | q => Ok q
    end.

(** [range(a, b)]. *)
Definition range (a b : Z) : list Z :=
  map (fun i => a + Z.of_nat i) (seq 0 (Z.to_nat (b - a))).

(** [str(n)] of an f-string. *)
Definition str (n : Z) : string := NilZero.string_of_int (Z.to_int n).

(** [round(x)] to an integer: to nearest, ties to even.  The script never
    calls it; the specification does. *)
Definition round (x : float) : result Z :=
  match x with
  | S754_zero _ => Ok 0
  | S754_finite s m e =>
      match e with
      | Zneg k =>
          let q := Zpos m / 2 ^ Zpos k in
          let r := Zpos m mod 2 ^ Zpos k in
          let up :=
            match Z.compare (2 * r) (2 ^ Zpos k) with
            | Lt => false
            | Eq => Z.odd q
            | Gt => true
            end in
          Ok (cond_Zopp s (if up then q + 1 else q))
      | _ => Ok (cond_Zopp s (Z.shiftl (Zpos m) e))
      end
  | S754_infinity _ => Raise OverflowError
  | S754_nan => Raise ValueError
  end.

End Py.

(** ** The gradient of lines 46 to 57 *)

Definition color : Type := (Z * Z * Z)%type.

(** The three channels before [int] is applied: lines 49 to 51, taken when
    [progress < 0.5]. *)
Definition upper_channels (progress : Py.float) : Py.float * Py.float * Py.float :=
  (Py.fsub (Py.of_int 255)
     (Py.fmul (Py.fmul progress (Py.of_int 2)) (Py.of_int 0)),
   Py.fadd (Py.of_int 20)
     (Py.fmul (Py.fmul progress (Py.of_int 2)) (Py.of_int 150)),
   Py.fsub (Py.of_int 100)
     (Py.fmul (Py.fmul progress (Py.of_int 2)) (Py.of_int 100))).

(** Lines 54 to 57, taken otherwise. *)
Definition lower_channels (progress : Py.float) : Py.float * Py.float * Py.float :=
  let adjusted_progress := Py.fmul (Py.fsub progress Py.lit_0_5) (Py.of_int 2) in
  (Py.fsub (Py.of_int 255) (Py.fmul adjusted_progress (Py.of_int 255)),
   Py.fadd (Py.of_int 170) (Py.fmul adjusted_progress (Py.of_int 85)),
   Py.fadd (Py.of_int 0) (Py.fmul adjusted_progress (Py.of_int 150))).

Definition gradient_channels (progress : Py.float) : Py.float * Py.float * Py.float :=
  if Py.fltb progress Py.lit_0_5 then upper_channels progress
  else lower_channels progress.

Definition gradient (progress : Py.float) : result color :=
  let '(fr, fg, fb) := gradient_channels progress in
  r <- Py.int fr ;;
  g <- Py.int fg ;;
  b <- Py.int fb ;;
  Ok (r, g, b).

(** ** Pillow

    An image keeps its mode, its size, the colour it was created with and
    the drawing calls made on it, oldest first.  [ImageDraw.Draw(img)]
    draws into [img] itself, so a drawing call is an update of the image. *)

Definition rgba : Type := (Z * Z * Z * Z)%type.

Inductive font : Type :=
| TrueType (name : string) (size : Z)
| DefaultFont.

Inductive draw_op : Type :=
| RoundedRectangle (box : (Z * Z) * (Z * Z)) (radius : Z) (fill : rgba)
| Text (xy : Z * Z) (text : string) (fill : color) (fnt : font).

Record image : Type := {
  im_mode : string;
  im_size : Z * Z;
  im_background : rgba;
  im_ops : list draw_op
}.

Definition Image_new (mode : string) (size : Z * Z) (c : rgba) : image :=
  {| im_mode := mode; im_size := size; im_background := c; im_ops := [] |}.

Definition draw (op : draw_op) (img : image) : image :=
  {| im_mode := im_mode img; im_size := im_size img;
     im_background := im_background img; im_ops := im_ops img ++ [op] |}.

Definition draw_all (l : list draw_op) (img : image) : image :=
  {| im_mode := im_mode img; im_size := im_size img;
     im_background := im_background img; im_ops := im_ops img ++ l |}.

(** What the script finds around it: whether [ImageFont.truetype] loads a
    font or raises [IOError], whether the drawing context has [textsize]
    and what it measures, and whether [img.save] can write a path. *)
Record env : Type := {
  truetype_loads : string -> Z -> bool;
  has_textsize : bool;
  textsize : string -> font -> Z * Z;
  writable : string -> bool
}.

Record world : Type := {
  dirs : list string;
  files : list (string * image);
  stdout : list string
}.

Definition makedirs (path : string) (w : world) : world :=
  {| dirs := if in_dec string_dec path (dirs w) then dirs w else dirs w ++ [path];
     files := files w; stdout := stdout w |}.

Definition save (e : env) (img : image) (path : string) (w : world) : result world :=
  if writable e path then
    Ok {| dirs := dirs w; files := files w ++ [(path, img)]; stdout := stdout w |}
  else Raise IOError.

Definition print (line : string) (w : world) : world :=
  {| dirs := dirs w; files := files w; stdout := stdout w ++ [line] |}.

(** ** The script *)

(** Lines 8 to 17; a [dict] is iterated in insertion order. *)
Definition icon_sizes : list (string * Z) :=
  [ ("Icon-40.png", 40); ("Icon-60.png", 60); ("Icon-58.png", 58);
    ("Icon-87.png", 87); ("Icon-80.png", 80); ("Icon-120.png", 120);
    ("Icon-180.png", 180); ("Icon-1024.png", 1024) ]%string.

(** [font_size = int(size * 0.7)], line 31. *)
Definition font_size (size : Z) : result Z :=
  Py.int (Py.fmul (Py.of_int size) Py.lit_0_7).

(** Lines 32 to 36: [try: truetype(...) except IOError: load_default()]. *)
Definition resolve_font (e : env) (fs : Z) : font :=
  if truetype_loads e "Arial.ttf" fs then TrueType "Arial.ttf" fs else DefaultFont.

(** Line 40. *)
Definition measure (e : env) (text : string) (fnt : font) (fs : Z) : Z * Z :=
  if has_textsize e then textsize e text fnt else (fs, fs).

(** Line 41. *)
Definition position (size text_width text_height : Z) : Z * Z :=
  ((size - text_width) / 2, (size - text_height) / 2).

(** The colour of one pass of the loop, lines 46 to 57. *)
Definition scanline_color (y0 text_height y : Z) : result color :=
  progress <- Py.truediv (y - y0) text_height ;;
  gradient progress.

(** The body of the loop, lines 46 to 60. *)
Definition scanline (pos : Z * Z) (text : string) (fnt : font) (text_height : Z)
  (img : image) (y : Z) : result image :=
  c <- scanline_color (snd pos) text_height y ;;
  Ok (draw (Text pos text c fnt) img).

(** Lines 44 to 60. *)
Definition scanlines (pos : Z * Z) (text : string) (fnt : font) (text_height : Z)
  (img : image) : result image :=
  for_each (scanline pos text fnt text_height)
    (Py.range (snd pos) (snd pos + text_height)) img.

(** Lines 22 to 60. *)
Definition render (e : env) (size : Z) : result image :=
  let img := Image_new "RGBA" (size, size) (0, 0, 0, 255) in
  let corner_radius := size / 5 in
  let img := draw (RoundedRectangle ((0, 0), (size, size)) corner_radius
                     (0, 0, 0, 255)) img in
  fs <- font_size size ;;
  let fnt := resolve_font e fs in
  let text := "C"%string in
  let '(text_width, text_height) := measure e text fnt fs in
  let pos := position size text_width text_height in
  scanlines pos text fnt text_height img.

(** One pass of the outer loop, lines 20 to 64. *)
Definition generate_icon (e : env) (w : world) (item : string * Z) : result world :=
  let '(icon_name, size) := item in
  img <- render e size ;;
  w <- save e img ("icons/" ++ icon_name)%string w ;;
  Ok (print ("Generated " ++ icon_name ++ " (" ++ Py.str size ++ "x"
             ++ Py.str size ++ ")")%string w).

Definition main (e : env) (w : world) : result world :=
  let w := makedirs "icons" w in
  w <- for_each (generate_icon e) icon_sizes w ;;
  Ok (print "All icons generated successfully!" w).

(** ** The raster *)

(** Modelled from the spec: the rasteriser of Pillow, which the script
    calls and which is not part of the repository.  Following section 4.1,
    step 6, a drawing call overwrites the pixels of its shape with its
    fill, and a three-channel fill on an RGBA image is opaque.  The shapes
    themselves are left open: [glyph] tells which pixels a text at a
    position covers and [rrect] which pixels a rounded rectangle covers. *)
Definition paint (glyph : font -> string -> Z * Z -> Z * Z -> bool)
  (rrect : (Z * Z) * (Z * Z) -> Z -> Z * Z -> bool)
  (px : Z * Z) (c : rgba) (op : draw_op) : rgba :=
  match op with
  | RoundedRectangle box radius fill => if rrect box radius px then fill else c
  | Text xy text (r, g, b) fnt => if glyph fnt text xy px then (r, g, b, 255) else c
  end.

(** Modelled from the spec: the colour of a pixel of an image, which is
    the background painted over by the drawing calls in their order. *)
Definition pixel (glyph : font -> string -> Z * Z -> Z * Z -> bool)
  (rrect : (Z * Z) * (Z * Z) -> Z -> Z * Z -> bool)
  (img : image) (px : Z * Z) : rgba :=
  fold_left (paint glyph rrect px) (im_ops img) (im_background img).

(** ** Images, worlds and machines used in the statements *)

(** The image when the loop starts, line 27. *)
Definition base_image (size : Z) : image :=
  draw (RoundedRectangle ((0, 0), (size, size)) (size / 5) (0, 0, 0, 255))
    (Image_new "RGBA" (size, size) (0, 0, 0, 255)).

(** The files of a world: path, mode and size of each. *)
Definition listing (w : world) : list (string * string * (Z * Z)) :=
  map (fun f => (fst f, im_mode (snd f), im_size (snd f))) (files w).

(** A machine without the font and with a Pillow without [textsize]. *)
Definition bare_env : env :=
  {| truetype_loads := fun _ _ => false;
     has_textsize := false;
     textsize := fun _ _ => (0, 0);
     writable := fun _ => true |}.

Definition empty_world : world := {| dirs := []; files := []; stdout := [] |}.

(** A machine whose [textsize] measures a height of zero. *)
Definition flat_env : env :=
  {| truetype_loads := fun _ _ => true;
     has_textsize := true;
     textsize := fun _ _ => (20, 0);
     writable := fun _ => true |}.

(** A machine on which Arial loads at 125 points and at no other size,
    with a Pillow without [textsize]. *)
Definition arial_at_125 : env :=
  {| truetype_loads := fun name sz => String.eqb name "Arial.ttf" && (sz =? 125);
     has_textsize := false;
     textsize := fun _ _ => (0, 0);
     writable := fun _ => true |}.

(** The largest binary64 number below one half, [0.5 - 2 ^ -54]. *)
Definition below_half : Py.float := S754_finite false 9007199254740991 (-54).

(** [255 / 512], which is [0.5 - 2 ^ -9]. *)
Definition near_half : Py.float := S754_finite false 8972014882652160 (-54).

(** ** What the specification says where it differs from the script *)

(** [font_size = round(size * 0.7)], section 3 and section 4.1, step 3. *)
Definition spec_font_size (size : Z) : result Z :=
  Py.round (Py.fmul (Py.of_int size) Py.lit_0_7).

(** ** Values of binary64 numbers *)

Definition bpow (e : Z) : R := powerRZ 2 e.

Definition F2R (m e : Z) : R := (IZR m * bpow e)%R.

Definition SF2R (x : spec_float) : R :=
  match x with
  | S754_finite s m e => F2R (cond_Zopp s (Zpos m)) e
  | _ => 0%R
  end.

(** A number the hardware can hold. *)
Definition valid (x : spec_float) : Prop := valid_binary 53 1024 x = true.

Abbreviation fexp64 := (fexp 53 1024).

Definition canonical (m : positive) (e : Z) : Prop :=
  fexp64 (Zdigits2 (Zpos m) + e) = e.

(** A zero of either sign or a positive finite number. *)
Definition nonneg (x : spec_float) : Prop :=
  match x with
  | S754_zero _ => True
  | S754_finite false _ _ => True
  | _ => False
  end.

Definition below (x : spec_float) (B : R) : Prop := nonneg x /\ (SF2R x <= B)%R.

(** A bound [N * 2 ^ E] that is itself a binary64 number. *)
Definition dyadic (N E : Z) : Prop := 0 < N < 2 ^ 53 /\ -1074 <= E <= 919.

Definition rec_exact (r : shr_record) : bool := negb (shr_r r) && negb (shr_s r).

Definition loc_exact (l : location) : bool :=
  match l with loc_Exact => true | loc_Inexact _ => false end.

Definition inexact_incr (l : location) : Z := if loc_exact l then 0 else 1.

Definition in_byte (z : Z) : Prop := 0 <= z <= 255.

(** [z] is [x] with its fractional part dropped. *)
Definition truncates (z : Z) (x : spec_float) : Prop :=
  (0 <= SF2R x -> IZR z <= SF2R x < IZR z + 1)%R /\
  (SF2R x <= 0 -> IZR z - 1 < SF2R x <= IZR z)%R.

(** ** Further definitions used in the statements *)

(** A colour whose three channels are bytes. *)
Definition is_bytes (c : color) : Prop :=
  let '(r, g, b) := c in in_byte r /\ in_byte g /\ in_byte b.

(** The line printed for one icon, line 64. *)
Definition notice (item : string * Z) : string :=
  ("Generated " ++ fst item ++ " (" ++ Py.str (snd item) ++ "x"
   ++ Py.str (snd item) ++ ")")%string.

(** A machine on which the third icon cannot be written. *)
Definition read_only_third : env :=
  {| truetype_loads := fun _ _ => false;
     has_textsize := false;
     textsize := fun _ _ => (0, 0);
     writable := fun path => negb (String.eqb path "icons/Icon-58.png") |}.

(** ** Rounding on a grid *)

(** Where a remainder [r] of a division by [2 ^ k] lies in its interval. *)
Definition loc_of_rem (r k : Z) : location :=
  if r =? 0 then loc_Exact else loc_Inexact (2 * r ?= 2 ^ k).

(** [X] rounded to a multiple of [2 ^ g], to nearest, ties to even. *)
Definition round_grid (X g : Z) : Z :=
  round_nearest_even (X / 2 ^ g) (loc_of_rem (X mod 2 ^ g) g) * 2 ^ g.

(** A constant of the script: zero, or a positive number that can serve as
    a bound. *)
Definition constant (c : spec_float) : Prop :=
  match c with
  | S754_zero _ => True
  | S754_finite false m e => dyadic (Zpos m) e
  | _ => False
  end.

(** * Proofs *)

(** ** Binary64 arithmetic *)

(** The literals are the numbers the Python parser reads, and [float(n)]
    of a small integer is that integer. *)
Example lit_0_5_parsed : Prim2SF 0.5%float = Py.lit_0_5.
Proof. vm_compute. reflexivity. Qed.

Example lit_0_7_parsed : Prim2SF 0x1.6666666666666p-1%float = Py.lit_0_7.
Proof. vm_compute. reflexivity. Qed.

Example lit_0_7_nearest :
  SFdiv Py.prec Py.emax (Py.of_int 7) (Py.of_int 10) = Py.lit_0_7.
Proof. vm_compute. reflexivity. Qed.

Example one_third : Py.truediv 1 3 = Ok (Prim2SF 0x1.5555555555555p-2%float).
Proof. vm_compute. reflexivity. Qed.

Lemma bpow_pos (e : Z) : (0 < bpow e)%R.
Proof. apply powerRZ_lt. lra. Qed.

Lemma bpow_add (a b : Z) : bpow (a + b) = (bpow a * bpow b)%R.
Proof. apply powerRZ_add. lra. Qed.

Lemma bpow_IZR (k : Z) : 0 <= k -> bpow k = IZR (2 ^ k).
Proof.
  intros Hk. destruct k as [|p|p]; try lia.
  - reflexivity.
  - unfold bpow. rewrite <- Zpower_pos_powerRZ. reflexivity.
Qed.

Lemma bpow_le (a b : Z) : a <= b -> (bpow a <= bpow b)%R.
Proof.
  intros Hab. replace b with (a + (b - a)) by lia.
  rewrite bpow_add, (bpow_IZR (b - a)) by lia.
  assert (1 <= IZR (2 ^ (b - a)))%R.
  { apply IZR_le. pose proof (Z.pow_pos_nonneg 2 (b - a)). lia. }
  pose proof (bpow_pos a). nra.
Qed.

Lemma bpow_lt_inv (a b : Z) : (bpow a < bpow b)%R -> a < b.
Proof.
  intros H. destruct (Z_lt_le_dec a b) as [|Hle]; [assumption|].
  apply bpow_le in Hle. lra.
Qed.

Lemma F2R_shift (m e k : Z) : 0 <= k -> F2R (m * 2 ^ k) (e - k) = F2R m e.
Proof.
  intros Hk. unfold F2R. rewrite mult_IZR, <- (bpow_IZR k) by assumption.
  replace e with ((e - k) + k) at 2 by lia. rewrite bpow_add. ring.
Qed.

Lemma F2R_le (m n e : Z) : m <= n -> (F2R m e <= F2R n e)%R.
Proof.
  intros H. unfold F2R. apply IZR_le in H. pose proof (bpow_pos e). nra.
Qed.

Lemma F2R_le_inv (m n e : Z) : (F2R m e <= F2R n e)%R -> m <= n.
Proof.
  unfold F2R. intros H. apply le_IZR. pose proof (bpow_pos e). nra.
Qed.

(** *** Number of binary digits *)

Lemma digits2_pos_size (p : positive) : digits2_pos p = Pos.size p.
Proof. induction p; simpl; congruence. Qed.

Lemma Zdigits2_bounds (m : Z) :
  0 < m -> 2 ^ (Zdigits2 m - 1) <= m < 2 ^ Zdigits2 m.
Proof.
  destruct m as [|p|p]; try lia. intros _. simpl Zdigits2.
  rewrite digits2_pos_size.
  pose proof (Pos.size_gt p) as Hgt. pose proof (Pos.size_le p) as Hle.
  apply Pos2Z.pos_lt_pos in Hgt. apply Pos2Z.pos_le_pos in Hle.
  rewrite Pos2Z.inj_pow in Hgt, Hle.
  replace (Z.pos (Pos.size p)) with (Z.succ (Z.pos (Pos.size p) - 1)) in Hle at 1 by lia.
  rewrite Z.pow_succ_r in Hle by lia.
  change (Z.pos p~0) with (2 * Z.pos p) in Hle. lia.
Qed.

Lemma Zdigits2_pos (m : Z) : 0 < m -> 0 < Zdigits2 m.
Proof. destruct m; simpl; lia. Qed.

Lemma Zdigits2_nonneg (m : Z) : 0 <= Zdigits2 m.
Proof. destruct m; simpl; lia. Qed.

Lemma Zdigits2_unique (m k : Z) :
  2 ^ (k - 1) <= m < 2 ^ k -> 0 < m -> Zdigits2 m = k.
Proof.
  intros [Hlo Hhi] Hm.
  destruct (Zdigits2_bounds m Hm) as [Dlo Dhi].
  pose proof (Zdigits2_pos m Hm) as Dpos.
  assert (Hk : 0 < k).
  { destruct (Z_lt_le_dec 0 k) as [|Hk]; [assumption|].
    assert (Hk0 : k = 0 \/ k < 0) by lia. destruct Hk0 as [->|Hneg].
    - simpl in Hhi. lia.
    - rewrite (Z.pow_neg_r 2 k) in Hhi by assumption. lia. }
  destruct (Z.lt_trichotomy (Zdigits2 m) k) as [Hlt|[Heq|Hgt]]; [|assumption|].
  - assert (2 ^ Zdigits2 m <= 2 ^ (k - 1)) by (apply Z.pow_le_mono_r; lia). lia.
  - assert (2 ^ k <= 2 ^ (Zdigits2 m - 1)) by (apply Z.pow_le_mono_r; lia). lia.
Qed.

Lemma Zdigits2_mono (a b : Z) : 0 <= a <= b -> Zdigits2 a <= Zdigits2 b.
Proof.
  intros [Ha Hab].
  assert (Ha0 : a = 0 \/ 0 < a) by lia. destruct Ha0 as [->|Hpos].
  - apply Zdigits2_nonneg.
  - destruct (Zdigits2_bounds a Hpos) as [Alo _].
    destruct (Zdigits2_bounds b ltac:(lia)) as [_ Bhi].
    destruct (Z_lt_le_dec (Zdigits2 b) (Zdigits2 a)) as [Hlt|]; [|assumption].
    assert (2 ^ Zdigits2 b <= 2 ^ (Zdigits2 a - 1))
      by (apply Z.pow_le_mono_r; lia).
    lia.
Qed.

Lemma Zdigits2_div (m k : Z) :
  0 <= k -> 0 < m / 2 ^ k -> Zdigits2 (m / 2 ^ k) = Zdigits2 m - k.
Proof.
  intros Hk Hq.
  assert (H2k : 0 < 2 ^ k) by (apply Z.pow_pos_nonneg; lia).
  assert (Hm : 0 < m).
  { destruct (Z_lt_le_dec 0 m) as [|Hle]; [assumption|].
    assert (m / 2 ^ k <= 0) by (apply Z.div_le_upper_bound; lia). lia. }
  destruct (Zdigits2_bounds m Hm) as [Dlo Dhi].
  assert (Hkd : k < Zdigits2 m).
  { destruct (Z_lt_le_dec k (Zdigits2 m)) as [|Hle]; [assumption|].
    assert (2 ^ Zdigits2 m <= 2 ^ k) by (apply Z.pow_le_mono_r; lia).
    rewrite Z.div_small in Hq by lia. lia. }
  apply Zdigits2_unique; [|assumption]. split.
  - apply Z.div_le_lower_bound; [assumption|].
    rewrite <- Z.pow_add_r by lia.
    replace (k + (Zdigits2 m - k - 1)) with (Zdigits2 m - 1) by lia. assumption.
  - apply Z.div_lt_upper_bound; [assumption|].
    rewrite <- Z.pow_add_r by lia.
    replace (k + (Zdigits2 m - k)) with (Zdigits2 m) by lia. assumption.
Qed.

(** *** Right shifts *)



Lemma shr_1_spec (r : shr_record) :
  0 <= shr_m r ->
  shr_m (shr_1 r) = shr_m r / 2 /\
  rec_exact (shr_1 r) = rec_exact r && (shr_m r mod 2 =? 0).
Proof.
  destruct r as [m r s]. unfold rec_exact. simpl. intros Hm.
  destruct m as [|[p|p|]|p]; try lia; simpl shr_m; simpl shr_r; simpl shr_s.
  - split; [reflexivity|]. destruct r, s; reflexivity.
  - split.
    + rewrite Pos2Z.inj_xI. apply (Z.div_unique _ _ _ 1); lia.
    + replace (Z.pos p~1 mod 2) with 1.
      * destruct r, s; reflexivity.
      * rewrite Pos2Z.inj_xI. apply (Z.mod_unique _ _ (Z.pos p)); lia.
  - split.
    + rewrite Pos2Z.inj_xO. apply (Z.div_unique _ _ _ 0); lia.
    + replace (Z.pos p~0 mod 2) with 0.
      * destruct r, s; reflexivity.
      * rewrite Pos2Z.inj_xO. apply (Z.mod_unique _ _ (Z.pos p)); lia.
  - split; [reflexivity|]. destruct r, s; reflexivity.
Qed.

Lemma mod_mul_eqb (a b c : Z) :
  0 <= a -> 0 < b -> 0 < c ->
  (a mod b =? 0) && ((a / b) mod c =? 0) = (a mod (b * c) =? 0).
Proof.
  intros Ha Hb Hc. rewrite (Z.rem_mul_r a b c) by lia.
  pose proof (Z.mod_pos_bound a b Hb). pose proof (Z.mod_pos_bound (a / b) c Hc).
  destruct (Z.eqb_spec (a mod b) 0), (Z.eqb_spec ((a / b) mod c) 0),
    (Z.eqb_spec (a mod b + b * ((a / b) mod c)) 0); simpl; try reflexivity; nia.
Qed.

(** [p] right shifts divide the mantissa by [2 ^ p], and the position
    stays exact exactly when it was exact and the bits shifted out are zero. *)
Lemma iter_shr_1 (p : positive) : forall r,
  0 <= shr_m r ->
  shr_m (iter_pos shr_1 p r) = shr_m r / 2 ^ Zpos p /\
  rec_exact (iter_pos shr_1 p r) = rec_exact r && (shr_m r mod 2 ^ Zpos p =? 0).
Proof.
  induction p as [p IH|p IH|]; intros r Hr; simpl iter_pos.
  - destruct (shr_1_spec r Hr) as [M1 E1].
    assert (H1 : 0 <= shr_m (shr_1 r)) by (rewrite M1; apply Z.div_pos; lia).
    destruct (IH _ H1) as [M2 E2].
    assert (H2 : 0 <= shr_m (iter_pos shr_1 p (shr_1 r)))
      by (rewrite M2; apply Z.div_pos; [lia | apply Z.pow_pos_nonneg; lia]).
    destruct (IH _ H2) as [M3 E3].
    assert (P : 0 < 2 ^ Z.pos p) by (apply Z.pow_pos_nonneg; lia).
    assert (Epow : 2 ^ Z.pos p~1 = 2 * (2 ^ Z.pos p * 2 ^ Z.pos p)).
    { rewrite Pos2Z.inj_xI, <- Z.pow_add_r, Z.add_diag by lia.
      rewrite <- Z.pow_succ_r by lia. f_equal; lia. }
    split.
    + rewrite M3, M2, M1, Epow, !Z.div_div by lia. reflexivity.
    + rewrite E3, E2, E1, M2, M1, Epow.
      rewrite <- !andb_assoc. f_equal.
      rewrite <- (mod_mul_eqb (shr_m r) 2) by lia. f_equal.
      apply mod_mul_eqb; first [lia | apply Z.div_pos; lia].
  - destruct (IH _ Hr) as [M2 E2].
    assert (H2 : 0 <= shr_m (iter_pos shr_1 p r))
      by (rewrite M2; apply Z.div_pos; [lia | apply Z.pow_pos_nonneg; lia]).
    destruct (IH _ H2) as [M3 E3].
    assert (P : 0 < 2 ^ Z.pos p) by (apply Z.pow_pos_nonneg; lia).
    assert (Epow : 2 ^ Z.pos p~0 = 2 ^ Z.pos p * 2 ^ Z.pos p).
    { rewrite Pos2Z.inj_xO, <- Z.pow_add_r, Z.add_diag by lia. reflexivity. }
    split.
    + rewrite M3, M2, Epow, Z.div_div by lia. reflexivity.
    + rewrite E3, E2, M2, Epow, <- andb_assoc. f_equal.
      apply mod_mul_eqb; lia.
  - apply shr_1_spec. assumption.
Qed.

Lemma shr_spec (r : shr_record) (e n : Z) :
  0 <= shr_m r ->
  shr_m (fst (shr r e n)) = shr_m r / 2 ^ Z.max n 0 /\
  snd (shr r e n) = e + Z.max n 0 /\
  rec_exact (fst (shr r e n)) = rec_exact r && (shr_m r mod 2 ^ Z.max n 0 =? 0).
Proof.
  intros Hr. destruct n as [|p|p]; simpl shr; simpl fst; simpl snd.
  - simpl. rewrite Z.div_1_r, Z.mod_1_r, andb_true_r. repeat split. lia.
  - rewrite Z.max_l by lia. destruct (iter_shr_1 p r Hr) as [M E].
    repeat split; assumption.
  - rewrite Z.max_r by lia. simpl. rewrite Z.div_1_r, Z.mod_1_r, andb_true_r.
    repeat split. lia.
Qed.

(** *** Rounding to nearest *)


Lemma fexp64_eq (e : Z) : fexp64 e = Z.max (e - 53) (-1074).
Proof. reflexivity. Qed.

Lemma rne_spec (m : Z) (r : shr_record) :
  m <= round_nearest_even m (loc_of_shr_record r) <= m + 1 /\
  (rec_exact r = true -> round_nearest_even m (loc_of_shr_record r) = m).
Proof.
  destruct r as [m0 [|] [|]]; unfold rec_exact; simpl;
    try destruct (Z.even m); split; (lia || discriminate || reflexivity).
Qed.

Lemma shr_record_of_loc_m (m : Z) (l : location) : shr_m (shr_record_of_loc m l) = m.
Proof. destruct l as [|[| |]]; reflexivity. Qed.

Lemma shr_record_of_loc_exact (m : Z) (l : location) :
  rec_exact (shr_record_of_loc m l) = loc_exact l.
Proof. destruct l as [|[| |]]; reflexivity. Qed.

(** The rounding of [mx * 2 ^ ex] unfolded: a shift by [k1] bits to the
    exponent of the format, at most one unit added to the mantissa and none
    when the shift is exact, then a shift by [k2] bits if the mantissa has
    grown a digit. *)
Lemma binary_round_aux_spec (s : bool) (mx ex : Z) (l : location) :
  0 <= mx ->
  exists m1 : Z,
    let k1 := Z.max (fexp64 (Zdigits2 mx + ex) - ex) 0 in
    let k2 := Z.max (fexp64 (Zdigits2 m1 + (ex + k1)) - (ex + k1)) 0 in
    mx / 2 ^ k1 <= m1 <= mx / 2 ^ k1 + 1 /\
    (loc_exact l = true -> mx mod 2 ^ k1 = 0 -> m1 = mx / 2 ^ k1) /\
    binary_round_aux 53 1024 s mx ex l =
      match m1 / 2 ^ k2 with
      | Z0 => S754_zero s
      | Zpos m =>
          if ex + k1 + k2 <=? 1024 - 53 then S754_finite s m (ex + k1 + k2)
          else S754_infinity s
      | Zneg _ => S754_nan
      end.
Proof.
  intros Hmx. unfold binary_round_aux, shr_fexp.
  set (n1 := fexp64 (Zdigits2 mx + ex) - ex).
  pose proof (shr_spec (shr_record_of_loc mx l) ex n1) as S1.
  rewrite shr_record_of_loc_m, shr_record_of_loc_exact in S1.
  destruct (S1 Hmx) as (M1 & E1 & X1). clear S1.
  destruct (shr (shr_record_of_loc mx l) ex n1) as [mrs' e']. simpl in M1, E1, X1.
  set (m1 := round_nearest_even (shr_m mrs') (loc_of_shr_record mrs')).
  destruct (rne_spec (shr_m mrs') mrs') as [B1 Ex1]. fold m1 in B1, Ex1.
  exists m1. cbv zeta. rewrite <- E1, <- M1.
  set (n2 := fexp64 (Zdigits2 m1 + e') - e').
  assert (Hm1 : 0 <= m1).
  { assert (0 <= shr_m mrs'); [|lia]. rewrite M1. apply Z.div_pos; [lia|].
    apply Z.pow_pos_nonneg; lia. }
  destruct (shr_spec (shr_record_of_loc m1 loc_Exact) e' n2 Hm1) as (M2 & E2 & _).
  destruct (shr (shr_record_of_loc m1 loc_Exact) e' n2) as [mrs'' e''].
  simpl in M2, E2. rewrite M2, E2.
  split; [assumption|]. split; [|reflexivity].
  intros Hl Hmod. apply Ex1. rewrite X1, Hl. simpl. apply Z.eqb_eq. assumption.
Qed.

Lemma F2R_pos_bpow (m e : Z) : 0 < m -> (bpow e <= F2R m e)%R.
Proof.
  intros Hm. unfold F2R. assert (1 <= IZR m)%R by (apply IZR_le; lia).
  pose proof (bpow_pos e). nra.
Qed.

Lemma F2R_lt_bpow (m e k : Z) : 0 <= k -> m < 2 ^ k -> (F2R m e < bpow (k + e))%R.
Proof.
  intros Hk Hm. unfold F2R. rewrite bpow_add, (bpow_IZR k) by assumption.
  apply IZR_lt in Hm. pose proof (bpow_pos e). nra.
Qed.

Lemma F2R_ge_bpow (m e k : Z) : 0 <= k -> 2 ^ k <= m -> (bpow (k + e) <= F2R m e)%R.
Proof.
  intros Hk Hm. unfold F2R. rewrite bpow_add, (bpow_IZR k) by assumption.
  apply IZR_le in Hm. pose proof (bpow_pos e). nra.
Qed.


(** Rounding never goes above a bound that the format holds: when the
    exact value, or for an inexact position the next mantissa, is at most
    [N * 2 ^ E], the result is a zero or a finite number at most
    [N * 2 ^ E]; in particular it is not an infinity. *)
Lemma binary_round_aux_upper (s : bool) (mx ex : Z) (l : location) (N E : Z) :
  0 <= mx -> 0 < N < 2 ^ 53 -> -1074 <= E <= 919 ->
  (F2R (mx + inexact_incr l) ex <= F2R N E)%R ->
  binary_round_aux 53 1024 s mx ex l = S754_zero s \/
  exists m e, binary_round_aux 53 1024 s mx ex l = S754_finite s m e /\
              (F2R (Zpos m) e <= F2R N E)%R.
Proof.
  intros Hmx HN HE Hle.
  destruct (binary_round_aux_spec s mx ex l Hmx) as (m1 & B & X & ->).
  cbv zeta in *.
  set (k1 := Z.max (fexp64 (Zdigits2 mx + ex) - ex) 0) in *.
  set (k2 := Z.max (fexp64 (Zdigits2 m1 + (ex + k1)) - (ex + k1)) 0).
  assert (Hk1 : 0 <= k1) by (unfold k1; lia).
  assert (Hk2 : 0 <= k2) by (unfold k2; lia).
  assert (Hinc : 0 <= inexact_incr l <= 1)
    by (unfold inexact_incr; destruct (loc_exact l); lia).
  assert (A : (F2R m1 (ex + k1) <= F2R N E)%R).
  { assert (Hk : k1 = 0 \/ 0 < k1) by lia. destruct Hk as [K0|Kpos].
    - rewrite K0 in *. rewrite Z.pow_0_r, Z.div_1_r in B. rewrite Z.add_0_r.
      apply Rle_trans with (2 := Hle). apply F2R_le.
      unfold inexact_incr. destruct (loc_exact l).
      + rewrite X; [rewrite Z.pow_0_r, Z.div_1_r; lia|reflexivity|].
        rewrite Z.pow_0_r. apply Z.mod_1_r.
      + lia.
    - assert (Ee : ex + k1 = fexp64 (Zdigits2 mx + ex))
        by (clear - Kpos; unfold k1 in Kpos |- *; lia).
      assert (HeE : ex + k1 <= E).
      { rewrite Ee, fexp64_eq. apply Z.max_lub; [|lia].
        assert (Hm0 : mx = 0 \/ 0 < mx) by lia. destruct Hm0 as [->|Hpos].
        - simpl Zdigits2 in *. rewrite fexp64_eq in Ee. lia.
        - destruct (Zdigits2_bounds mx Hpos) as [Dlo _].
          pose proof (Zdigits2_pos mx Hpos) as Dpos.
          assert (bpow (Zdigits2 mx - 1 + ex) <= F2R mx ex)%R
            by (apply F2R_ge_bpow; lia).
          assert (F2R mx ex <= F2R (mx + inexact_incr l) ex)%R
            by (apply F2R_le; lia).
          assert (F2R N E < bpow (53 + E))%R by (apply F2R_lt_bpow; lia).
          assert (Zdigits2 mx - 1 + ex < 53 + E) by (apply bpow_lt_inv; lra).
          lia. }
      set (N' := N * 2 ^ (E - (ex + k1))).
      assert (HN' : F2R N' (ex + k1) = F2R N E).
      { unfold N'. replace (ex + k1) with (E - (E - (ex + k1))) at 2 by lia.
        apply F2R_shift. lia. }
      assert (P1 : 0 < 2 ^ k1) by (apply Z.pow_pos_nonneg; lia).
      assert (Hint : mx + inexact_incr l <= N' * 2 ^ k1).
      { apply (F2R_le_inv _ _ ex). apply Rle_trans with (1 := Hle).
        rewrite <- HN'. replace ex with (ex + k1 - k1) at 2 by lia.
        rewrite F2R_shift by lia. apply Rle_refl. }
      rewrite <- HN'. apply F2R_le.
      destruct (Z_lt_le_dec mx (N' * 2 ^ k1)) as [Hlt|Hge].
      + assert (mx / 2 ^ k1 < N') by (apply Z.div_lt_upper_bound; lia). lia.
      + assert (Hmx' : mx = N' * 2 ^ k1) by lia.
        assert (Hex : loc_exact l = true).
        { unfold inexact_incr in Hint. destruct (loc_exact l); [reflexivity|lia]. }
        rewrite X; [|assumption|].
        * rewrite Hmx', Z.div_mul by lia. lia.
        * rewrite Hmx'. apply Z.mod_mul. lia. }
  assert (Hm1 : 0 <= m1).
  { assert (0 <= mx / 2 ^ k1); [|lia]. apply Z.div_pos; [lia|].
    apply Z.pow_pos_nonneg; lia. }
  assert (P2 : 0 < 2 ^ k2) by (apply Z.pow_pos_nonneg; lia).
  assert (C : (F2R (m1 / 2 ^ k2) (ex + k1 + k2) <= F2R N E)%R).
  { apply Rle_trans with (2 := A).
    replace (ex + k1) with (ex + k1 + k2 - k2) at 2 by lia.
    rewrite <- (F2R_shift (m1 / 2 ^ k2) (ex + k1 + k2) k2) by lia.
    apply F2R_le. rewrite Z.mul_comm. apply Z.mul_div_le. assumption. }
  assert (Hq : 0 <= m1 / 2 ^ k2) by (apply Z.div_pos; lia).
  destruct (m1 / 2 ^ k2) as [|m|m]; [left; reflexivity| |lia].
  right. exists m, (ex + k1 + k2).
  assert (Hfin : (ex + k1 + k2 <=? 1024 - 53) = true).
  { apply Z.leb_le.
    assert (bpow (ex + k1 + k2) <= F2R (Z.pos m) (ex + k1 + k2))%R
      by (apply F2R_pos_bpow; lia).
    assert (F2R N E < bpow (53 + E))%R by (apply F2R_lt_bpow; lia).
    assert (ex + k1 + k2 < 53 + E) by (apply bpow_lt_inv; lra).
    lia. }
  rewrite Hfin. split; [reflexivity|assumption].
Qed.

Lemma fexp64_mono (a b : Z) : a <= b -> fexp64 a <= fexp64 b.
Proof. rewrite !fexp64_eq. lia. Qed.

(** When the mantissa has the digits of the format the rounded number is
    one that binary64 holds. *)
Lemma binary_round_aux_valid (s : bool) (mx ex : Z) (l : location) :
  0 <= mx -> ex <= fexp64 (Zdigits2 mx + ex) ->
  valid_binary 53 1024 (binary_round_aux 53 1024 s mx ex l) = true.
Proof.
  intros Hmx Hp.
  destruct (binary_round_aux_spec s mx ex l Hmx) as (m1 & B & _ & ->).
  cbv zeta in *.
  set (k1 := Z.max (fexp64 (Zdigits2 mx + ex) - ex) 0) in *.
  set (k2 := Z.max (fexp64 (Zdigits2 m1 + (ex + k1)) - (ex + k1)) 0).
  assert (Ee : ex + k1 = fexp64 (Zdigits2 mx + ex)) by (unfold k1; lia).
  assert (Hk1 : 0 <= k1) by (unfold k1; lia).
  assert (P1 : 0 < 2 ^ k1) by (apply Z.pow_pos_nonneg; lia).
  assert (Hq1 : 0 <= mx / 2 ^ k1) by (apply Z.div_pos; lia).
  assert (D1 : Zdigits2 mx - k1 <= Zdigits2 m1).
  { apply Z.le_trans with (Zdigits2 (mx / 2 ^ k1)); [|apply Zdigits2_mono; lia].
    assert (Hq : mx / 2 ^ k1 = 0 \/ 0 < mx / 2 ^ k1) by lia.
    destruct Hq as [Hq|Hq].
    - rewrite Hq. simpl Zdigits2.
      assert (Hm0 : mx = 0 \/ 0 < mx) by lia. destruct Hm0 as [->|Hpos].
      + simpl. lia.
      + destruct (Zdigits2_bounds mx Hpos) as [Dlo _].
        apply Z.div_small_iff in Hq; [|lia].
        destruct (Z_le_gt_dec k1 (Zdigits2 mx - 1)) as [Hlt|]; [|lia].
        assert (2 ^ k1 <= 2 ^ (Zdigits2 mx - 1)) by (apply Z.pow_le_mono_r; lia).
        lia.
    - rewrite Zdigits2_div by lia. lia. }
  assert (Hmono : ex + k1 <= fexp64 (Zdigits2 m1 + (ex + k1))).
  { rewrite Ee at 1. apply fexp64_mono. lia. }
  assert (Ee2 : ex + k1 + k2 = fexp64 (Zdigits2 m1 + (ex + k1))) by (unfold k2; lia).
  assert (Hk2 : 0 <= k2) by (unfold k2; lia).
  destruct (m1 / 2 ^ k2) as [|m|m] eqn:Hm2; try reflexivity.
  destruct (ex + k1 + k2 <=? 1024 - 53) eqn:Hfin; [|reflexivity].
  simpl valid_binary. unfold bounded, canonical_mantissa.
  rewrite Hfin, andb_true_r. apply Z.eqb_eq.
  change (Z.pos (digits2_pos m)) with (Zdigits2 (Z.pos m)).
  rewrite <- Hm2, Zdigits2_div by lia.
  rewrite Ee2 at 2. f_equal. lia.
Qed.

(** *** Multiplication, addition and subtraction *)





Lemma F2R_pos (m e : Z) : 0 < m -> (0 < F2R m e)%R.
Proof.
  intros Hm. unfold F2R. apply IZR_lt in Hm. pose proof (bpow_pos e). nra.
Qed.

Lemma SF2R_nonneg (x : spec_float) : nonneg x -> (0 <= SF2R x)%R.
Proof.
  destruct x as [s|s| |[|] m e]; simpl; intros H; try lra; try contradiction.
  apply Rlt_le, F2R_pos. lia.
Qed.

Lemma F2R_mul (m1 e1 m2 e2 : Z) :
  F2R (m1 * m2) (e1 + e2) = (F2R m1 e1 * F2R m2 e2)%R.
Proof. unfold F2R. rewrite mult_IZR, bpow_add. ring. Qed.

Lemma F2R_add (m1 m2 e : Z) : F2R (m1 + m2) e = (F2R m1 e + F2R m2 e)%R.
Proof. unfold F2R. rewrite plus_IZR. ring. Qed.

Lemma F2R_sub (m1 m2 e : Z) : F2R (m1 - m2) e = (F2R m1 e - F2R m2 e)%R.
Proof. unfold F2R. rewrite minus_IZR. ring. Qed.

Lemma binary_round_aux_below (mx ex : Z) (l : location) (N E : Z) :
  0 <= mx -> dyadic N E ->
  (F2R (mx + inexact_incr l) ex <= F2R N E)%R ->
  below (binary_round_aux 53 1024 false mx ex l) (F2R N E).
Proof.
  intros Hmx [HN HE] Hle.
  destruct (binary_round_aux_upper false mx ex l N E Hmx HN HE Hle) as [->|(m & e & -> & Hb)].
  - split; [exact I|]. simpl. apply Rlt_le, F2R_pos. lia.
  - split; [exact I|]. exact Hb.
Qed.

(** The product of two non-negative numbers is non-negative and at most a
    bound of their exact product. *)
Lemma fmul_below (x y : spec_float) (N E : Z) :
  nonneg x -> nonneg y -> dyadic N E ->
  (SF2R x * SF2R y <= F2R N E)%R ->
  below (SFmul 53 1024 x y) (F2R N E).
Proof.
  intros Hx Hy HD Hle.
  assert (H0 : (0 <= F2R N E)%R) by (apply Rlt_le, F2R_pos; destruct HD; lia).
  destruct x as [sx|sx| |[|] mx ex]; try contradiction;
    destruct y as [sy|sy| |[|] my ey]; try contradiction;
    try (split; [exact I | exact H0]).
  unfold SFmul. simpl xorb. apply binary_round_aux_below; [lia|assumption|].
  simpl inexact_incr. rewrite Z.add_0_r, Pos2Z.inj_mul, F2R_mul. exact Hle.
Qed.

Lemma iter_xO (d m : positive) : Zpos (Pos.iter xO m d) = Zpos m * 2 ^ Zpos d.
Proof.
  induction d as [|d IH] using Pos.peano_ind.
  - simpl. lia.
  - rewrite Pos.iter_succ, Pos2Z.inj_xO, IH, Pos2Z.inj_succ, Z.pow_succ_r by lia. lia.
Qed.

Lemma shl_align_spec (mx : positive) (ex ex' : Z) :
  F2R (Zpos (fst (shl_align mx ex ex'))) (snd (shl_align mx ex ex')) = F2R (Zpos mx) ex /\
  (ex' <= ex -> snd (shl_align mx ex ex') = ex').
Proof.
  unfold shl_align. destruct (ex' - ex) as [|d|d] eqn:Hd; simpl fst; simpl snd.
  - split; [reflexivity|lia].
  - split; [reflexivity|lia].
  - split; [|reflexivity]. rewrite iter_xO.
    replace ex' with (ex - Zpos d) by lia. apply F2R_shift. lia.
Qed.

Lemma binary_round_below (mx : positive) (ex N E : Z) :
  dyadic N E -> (F2R (Zpos mx) ex <= F2R N E)%R ->
  below (binary_round 53 1024 false mx ex) (F2R N E).
Proof.
  intros HD Hle. unfold binary_round.
  destruct (shl_align_spec mx ex (fexp64 (Z.pos (digits2_pos mx) + ex))) as [Hv _].
  destruct (shl_align mx ex (fexp64 (Z.pos (digits2_pos mx) + ex))) as [mz ez].
  simpl in Hv. apply binary_round_aux_below; [lia|assumption|].
  simpl inexact_incr. rewrite Z.add_0_r, Hv. exact Hle.
Qed.

(** The same for the sum. *)
Lemma fadd_below (x y : spec_float) (N E : Z) :
  nonneg x -> nonneg y -> dyadic N E ->
  (SF2R x + SF2R y <= F2R N E)%R ->
  below (SFadd 53 1024 x y) (F2R N E).
Proof.
  intros Hx Hy HD Hle.
  pose proof (SF2R_nonneg x Hx) as Px. pose proof (SF2R_nonneg y Hy) as Py.
  destruct x as [sx|sx| |[|] mx ex]; try contradiction;
    destruct y as [sy|sy| |[|] my ey]; try contradiction.
  - split; [destruct sx, sy; exact I|]. simpl in *.
    destruct sx, sy; simpl; lra.
  - split; [exact I|]. simpl in *. lra.
  - split; [exact I|]. simpl in *. lra.
  - unfold SFadd.
    destruct (shl_align_spec mx ex (Z.min ex ey)) as [Vx Ex].
    destruct (shl_align_spec my ey (Z.min ex ey)) as [Vy Ey].
    rewrite Ex in Vx by lia. rewrite Ey in Vy by lia.
    simpl cond_Zopp. simpl binary_normalize.
    apply binary_round_below; [assumption|].
    rewrite Pos2Z.inj_add, F2R_add, Vx, Vy. exact Hle.
Qed.

(** The difference [x - y] with [y <= x] is non-negative and at most a
    bound of the exact difference. *)
Lemma fsub_below (x y : spec_float) (N E : Z) :
  nonneg x -> nonneg y -> dyadic N E ->
  (SF2R y <= SF2R x)%R -> (SF2R x - SF2R y <= F2R N E)%R ->
  below (SFsub 53 1024 x y) (F2R N E).
Proof.
  intros Hx Hy HD Hyx Hle.
  pose proof (SF2R_nonneg x Hx) as Px. pose proof (SF2R_nonneg y Hy) as Py.
  destruct x as [sx|sx| |[|] mx ex]; try contradiction;
    destruct y as [sy|sy| |[|] my ey]; try contradiction.
  - split; [destruct sx, sy; exact I|]. simpl in *.
    destruct sx, sy; simpl; lra.
  - exfalso. simpl in Hyx. pose proof (F2R_pos (Z.pos my) ey ltac:(lia)). lra.
  - split; [exact I|]. simpl in *. lra.
  - unfold SFsub.
    destruct (shl_align_spec mx ex (Z.min ex ey)) as [Vx Ex].
    destruct (shl_align_spec my ey (Z.min ex ey)) as [Vy Ey].
    rewrite Ex in Vx by lia. rewrite Ey in Vy by lia.
    simpl cond_Zopp. simpl in Hyx, Hle.
    set (ax := fst (shl_align mx ex (Z.min ex ey))) in *.
    set (ay := fst (shl_align my ey (Z.min ex ey))) in *.
    assert (Hge : Z.pos ay <= Z.pos ax).
    { apply (F2R_le_inv _ _ (Z.min ex ey)). rewrite Vx, Vy. exact Hyx. }
    assert (Hv : F2R (Z.pos ax - Z.pos ay) (Z.min ex ey)
                 = (F2R (Z.pos mx) ex - F2R (Z.pos my) ey)%R)
      by (rewrite F2R_sub, Vx, Vy; reflexivity).
    destruct (Z.pos ax - Z.pos ay) as [|d|d] eqn:Hd; try lia.
    + split; [exact I|]. simpl. apply Rlt_le, F2R_pos. destruct HD; lia.
    + simpl binary_normalize. apply binary_round_below; [assumption|].
      rewrite Hv. exact Hle.
Qed.

(** *** Truncation and comparisons *)

(** [int] of a non-negative number at most [n] is an integer of [[0, n]]. *)
Lemma int_below (x : spec_float) (n : Z) :
  below x (IZR n) -> exists z, Py.int x = Ok z /\ 0 <= z <= n.
Proof.
  intros [Hx Hle]. destruct x as [s|s| |[|] m e]; try contradiction.
  - exists 0. split; [reflexivity|]. simpl in Hle. apply le_IZR in Hle. lia.
  - exists (Z.shiftl (Z.pos m) e). split; [reflexivity|]. simpl in Hle.
    split; [apply Z.shiftl_nonneg; lia|].
    destruct (Z_le_gt_dec 0 e) as [He|He].
    + rewrite Z.shiftl_mul_pow2 by assumption.
      apply le_IZR. rewrite <- (F2R_shift (Z.pos m) e e He) in Hle.
      rewrite Z.sub_diag in Hle. unfold F2R in Hle. simpl bpow in Hle. lra.
    + rewrite Z.shiftl_div_pow2 by lia.
      assert (P : 0 < 2 ^ (- e)) by (apply Z.pow_pos_nonneg; lia).
      apply Z.lt_succ_r. apply Z.div_lt_upper_bound; [assumption|].
      assert (Hn : (F2R (Z.pos m) e <= F2R (n * 2 ^ (- e)) e)%R).
      { pose proof (F2R_shift n 0 (- e) ltac:(lia)) as Hs.
        replace (0 - - e) with e in Hs by lia. rewrite Hs.
        unfold F2R at 2. simpl bpow. lra. }
      apply F2R_le_inv in Hn. lia.
Qed.

(** Comparisons of valid numbers *)


Lemma valid_canonical (s : bool) (m : positive) (e : Z) :
  valid_binary 53 1024 (S754_finite s m e) = true -> canonical m e.
Proof.
  simpl. unfold bounded, canonical_mantissa, canonical.
  intros H. apply andb_true_iff in H. destruct H as [H _].
  apply Z.eqb_eq in H. exact H.
Qed.

Lemma canonical_bounds (m : positive) (e : Z) :
  canonical m e ->
  -1074 <= e /\ (F2R (Zpos m) e < bpow (53 + e))%R /\
  (-1074 < e -> (bpow (52 + e) <= F2R (Zpos m) e)%R).
Proof.
  unfold canonical. rewrite fexp64_eq. intros H.
  destruct (Zdigits2_bounds (Zpos m) ltac:(lia)) as [Dlo Dhi].
  pose proof (Zdigits2_pos (Zpos m) ltac:(lia)) as Dpos.
  split; [lia|]. split.
  - apply F2R_lt_bpow; [lia|].
    apply Z.lt_le_trans with (1 := Dhi). apply Z.pow_le_mono_r; lia.
  - intros He. apply F2R_ge_bpow; [lia|].
    assert (Hd : Zdigits2 (Z.pos m) = 53) by (clear Dlo Dhi; lia).
    rewrite Hd in Dlo. exact Dlo.
Qed.

(** On two positive numbers of the format the comparison of Python is the
    comparison of the values. *)
Lemma SFcompare_canonical (mx : positive) (ex : Z) (my : positive) (ey : Z) :
  canonical mx ex -> canonical my ey ->
  match SFcompare (S754_finite false mx ex) (S754_finite false my ey) with
  | Some Lt => (F2R (Zpos mx) ex < F2R (Zpos my) ey)%R
  | Some Eq => F2R (Zpos mx) ex = F2R (Zpos my) ey
  | Some Gt => (F2R (Zpos my) ey < F2R (Zpos mx) ex)%R
  | None => False
  end.
Proof.
  intros Cx Cy.
  destruct (canonical_bounds mx ex Cx) as (Ex & Ux & Lx).
  destruct (canonical_bounds my ey Cy) as (Ey & Uy & Ly).
  simpl. destruct (Z.compare_spec ex ey) as [Heq|Hlt|Hgt].
  - subst ey. rewrite Pos.compare_cont_spec. simpl Pos.switch_Eq.
    unfold F2R. pose proof (bpow_pos ex).
    destruct (Pos.compare_spec mx my) as [->|Hm|Hm].
    + reflexivity.
    + apply Rmult_lt_compat_r; [assumption|]. apply IZR_lt. lia.
    + apply Rmult_lt_compat_r; [assumption|]. apply IZR_lt. lia.
  - specialize (Ly ltac:(lia)).
    assert (bpow (53 + ex) <= bpow (52 + ey))%R by (apply bpow_le; lia). lra.
  - specialize (Lx ltac:(lia)).
    assert (bpow (53 + ey) <= bpow (52 + ex))%R by (apply bpow_le; lia). lra.
Qed.

Lemma F2R_0 (n : Z) : F2R n 0 = IZR n.
Proof. unfold F2R. simpl. ring. Qed.

Lemma F2R_const (m e n k : Z) :
  m = n * 2 ^ k -> e = - k -> 0 <= k -> F2R m e = IZR n.
Proof.
  intros -> -> Hk. rewrite <- (F2R_0 n). replace (- k) with (0 - k) by lia.
  apply F2R_shift. assumption.
Qed.

(** Constants of the script *)

Lemma of_int_const (n : Z) (m : positive) (k : Z) :
  Py.of_int n = S754_finite false m (- k) -> Zpos m = n * 2 ^ k -> 0 <= k ->
  nonneg (Py.of_int n) /\ SF2R (Py.of_int n) = IZR n.
Proof.
  intros -> Hm Hk. split; [exact I|]. simpl. apply (F2R_const _ _ n k); auto.
Qed.

Ltac of_int_const k :=
  eapply (of_int_const _ _ k); [vm_compute; reflexivity | reflexivity | lia].

Lemma const_2 : nonneg (Py.of_int 2) /\ SF2R (Py.of_int 2) = 2%R.
Proof. of_int_const 51. Qed.
Lemma const_20 : nonneg (Py.of_int 20) /\ SF2R (Py.of_int 20) = 20%R.
Proof. of_int_const 48. Qed.
Lemma const_85 : nonneg (Py.of_int 85) /\ SF2R (Py.of_int 85) = 85%R.
Proof. of_int_const 46. Qed.
Lemma const_100 : nonneg (Py.of_int 100) /\ SF2R (Py.of_int 100) = 100%R.
Proof. of_int_const 46. Qed.
Lemma const_150 : nonneg (Py.of_int 150) /\ SF2R (Py.of_int 150) = 150%R.
Proof. of_int_const 45. Qed.
Lemma const_170 : nonneg (Py.of_int 170) /\ SF2R (Py.of_int 170) = 170%R.
Proof. of_int_const 45. Qed.
Lemma const_255 : nonneg (Py.of_int 255) /\ SF2R (Py.of_int 255) = 255%R.
Proof. of_int_const 45. Qed.
Lemma const_0 : Py.of_int 0 = S754_zero false.
Proof. reflexivity. Qed.

Lemma lit_0_5_val : SF2R Py.lit_0_5 = (/ 2)%R.
Proof.
  change (SF2R Py.lit_0_5) with (F2R (1 * 2 ^ 52) (-1 - 52)).
  rewrite F2R_shift by lia. unfold F2R. simpl. lra.
Qed.

Lemma F2R_half : F2R 1 (-1) = (/ 2)%R.
Proof. unfold F2R. simpl. lra. Qed.


Lemma fmul_comm (x y : spec_float) : Py.fmul x y = Py.fmul y x.
Proof.
  unfold Py.fmul.
  destruct x as [sx|sx| |sx mx ex], y as [sy|sy| |sy my ey]; simpl;
    rewrite ?(xorb_comm sx sy); try reflexivity.
  rewrite (Pos.mul_comm mx my), (Z.add_comm ex ey). reflexivity.
Qed.

Lemma dyadic_int (n : Z) : 0 < n < 2 ^ 53 -> dyadic n 0.
Proof. intros H. split; [assumption|lia]. Qed.

Lemma below_int (x : spec_float) (n : Z) : below x (F2R n 0) -> below x (IZR n).
Proof. rewrite F2R_0. auto. Qed.

Lemma below_nonneg (x : spec_float) (B : R) : below x B -> (0 <= SF2R x <= B)%R.
Proof. intros [Hn Hb]. split; [apply SF2R_nonneg; assumption|assumption]. Qed.


Lemma top_red (t : spec_float) :
  nonneg t ->
  Py.int (Py.fsub (Py.of_int 255) (Py.fmul t (Py.of_int 0))) = Ok 255.
Proof.
  destruct t as [[|]|s| |[|] m e]; simpl; intros H; try contradiction; reflexivity.
Qed.

Lemma double_below (p : spec_float) (N E : Z) :
  nonneg p -> dyadic N E -> (2 * SF2R p <= F2R N E)%R ->
  below (Py.fmul p (Py.of_int 2)) (F2R N E).
Proof.
  intros Hp HD Hle. destruct const_2 as [N2 V2].
  apply fmul_below; auto. rewrite V2. lra.
Qed.

Lemma scale_below (t : spec_float) (c : Z) :
  below t 1 -> 0 < c < 2 ^ 53 ->
  nonneg (Py.of_int c) /\ SF2R (Py.of_int c) = IZR c ->
  below (Py.fmul t (Py.of_int c)) (IZR c).
Proof.
  intros Ht Hc [Nc Vc]. destruct (below_nonneg _ _ Ht) as [T0 T1].
  apply below_int, fmul_below; [apply Ht|assumption|apply dyadic_int; assumption|].
  rewrite Vc, F2R_0. assert (0 < IZR c)%R by (apply IZR_lt; lia). nra.
Qed.

(** The upper branch: with [progress <= 1/2] the first channel is 255, the
    second is in [[0, 170]] and the third in [[0, 100]]. *)
Lemma gradient_top (p : spec_float) :
  nonneg p -> (SF2R p <= / 2)%R -> Py.fltb p Py.lit_0_5 = true ->
  exists g b,
    Py.int (Py.fadd (Py.of_int 20)
              (Py.fmul (Py.fmul p (Py.of_int 2)) (Py.of_int 150))) = Ok g /\
    Py.int (Py.fsub (Py.of_int 100)
              (Py.fmul (Py.fmul p (Py.of_int 2)) (Py.of_int 100))) = Ok b /\
    gradient p = Ok (255, g, b) /\ 0 <= g <= 170 /\ 0 <= b <= 100.
Proof.
  intros Hp Hle Hlt.
  assert (Ht : below (Py.fmul p (Py.of_int 2)) 1).
  { rewrite <- (F2R_0 1). apply double_below; [assumption|apply dyadic_int; lia|].
    rewrite F2R_0. lra. }
  set (t := Py.fmul p (Py.of_int 2)) in *.
  pose proof (scale_below t 150 Ht ltac:(lia) const_150) as H150.
  pose proof (scale_below t 100 Ht ltac:(lia) const_100) as H100.
  destruct (below_nonneg _ _ H150) as [A0 A1].
  destruct (below_nonneg _ _ H100) as [B0 B1].
  destruct const_20 as [N20 V20]. destruct const_100 as [N100 V100].
  assert (Hg : below (Py.fadd (Py.of_int 20) (Py.fmul t (Py.of_int 150))) (IZR 170)).
  { apply below_int, fadd_below; [assumption|apply H150|apply dyadic_int; lia|].
    rewrite V20, F2R_0. lra. }
  assert (Hb : below (Py.fsub (Py.of_int 100) (Py.fmul t (Py.of_int 100))) (IZR 100)).
  { apply below_int, fsub_below; [assumption|apply H100|apply dyadic_int; lia| |].
    - rewrite V100. lra.
    - rewrite V100, F2R_0. lra. }
  destruct (int_below _ _ Hg) as (g & Eg & Rg).
  destruct (int_below _ _ Hb) as (b & Eb & Rb).
  exists g, b. repeat split; try assumption; try lia.
  unfold gradient, gradient_channels, upper_channels. rewrite Hlt. fold t.
  rewrite (top_red t (proj1 Ht)), Eg, Eb. reflexivity.
Qed.

(** The lower branch: with [1/2 <= progress <= 1] the three channels are in
    [[0, 255]], [[0, 255]] and [[0, 150]]. *)
Lemma gradient_bottom (p : spec_float) :
  nonneg p -> (/ 2 <= SF2R p <= 1)%R -> Py.fltb p Py.lit_0_5 = false ->
  let t := Py.fmul (Py.fsub p Py.lit_0_5) (Py.of_int 2) in
  exists r g b,
    Py.int (Py.fsub (Py.of_int 255) (Py.fmul t (Py.of_int 255))) = Ok r /\
    Py.int (Py.fadd (Py.of_int 170) (Py.fmul t (Py.of_int 85))) = Ok g /\
    Py.int (Py.fmul t (Py.of_int 150)) = Ok b /\
    gradient p = Ok (r, g, b) /\ 0 <= r <= 255 /\ 0 <= g <= 255 /\ 0 <= b <= 150.
Proof.
  intros Hp [Hlo Hhi] Hlt t.
  assert (Hd : below (Py.fsub p Py.lit_0_5) (F2R 1 (-1))).
  { apply fsub_below; [assumption|exact I|split; lia| |];
      rewrite lit_0_5_val; rewrite ?F2R_half; lra. }
  assert (Ht : below t 1).
  { rewrite <- (F2R_0 1). apply double_below; [apply Hd|apply dyadic_int; lia|].
    destruct Hd as [_ Hd]. rewrite F2R_half in Hd. rewrite F2R_0. lra. }
  pose proof (scale_below t 255 Ht ltac:(lia) const_255) as H255.
  pose proof (scale_below t 85 Ht ltac:(lia) const_85) as H85.
  pose proof (scale_below t 150 Ht ltac:(lia) const_150) as H150.
  destruct (below_nonneg _ _ H255) as [A0 A1].
  destruct (below_nonneg _ _ H85) as [B0 B1].
  destruct const_255 as [N255 V255]. destruct const_170 as [N170 V170].
  assert (Hr : below (Py.fsub (Py.of_int 255) (Py.fmul t (Py.of_int 255))) (IZR 255)).
  { apply below_int, fsub_below; [assumption|apply H255|apply dyadic_int; lia| |].
    - rewrite V255. lra.
    - rewrite V255, F2R_0. lra. }
  assert (Hg : below (Py.fadd (Py.of_int 170) (Py.fmul t (Py.of_int 85))) (IZR 255)).
  { apply below_int, fadd_below; [assumption|apply H85|apply dyadic_int; lia|].
    rewrite V170, F2R_0. lra. }
  destruct (int_below _ _ Hr) as (r & Er & Rr).
  destruct (int_below _ _ Hg) as (g & Eg & Rg).
  destruct (int_below _ _ H150) as (b & Eb & Rb).
  exists r, g, b. repeat split; try assumption; try lia.
  unfold gradient, gradient_channels, lower_channels. rewrite Hlt. cbv zeta. fold t.
  rewrite Er, Eg.
  assert (E0 : Py.int (Py.fadd (Py.of_int 0) (Py.fmul t (Py.of_int 150))) = Ok b).
  { rewrite <- Eb. destruct H150 as [Hn _].
    destruct (Py.fmul t (Py.of_int 150)) as [[|]|s| |[|] m e];
      try contradiction; reflexivity. }
  rewrite E0. reflexivity.
Qed.

Lemma lit_0_5_canonical : canonical 4503599627370496 (-53).
Proof. reflexivity. Qed.

Lemma fltb_half (p : spec_float) :
  valid p -> nonneg p ->
  if Py.fltb p Py.lit_0_5 then (SF2R p < / 2)%R else (/ 2 <= SF2R p)%R.
Proof.
  intros V Hp. destruct p as [s|s| |[|] m e]; try contradiction.
  - simpl. lra.
  - pose proof (SFcompare_canonical m e _ _ (valid_canonical _ _ _ V) lit_0_5_canonical) as C.
    fold Py.lit_0_5 in C. unfold Py.fltb, SFltb.
    change (F2R 4503599627370496 (-53)) with (SF2R Py.lit_0_5) in C.
    rewrite lit_0_5_val in C. simpl SF2R.
    destruct (SFcompare (S754_finite false m e) Py.lit_0_5) as [[| |]|];
      try contradiction; lra.
Qed.

(** On a number of [[0, 1]] the gradient returns a colour of three bytes. *)
Lemma gradient_range (p : spec_float) :
  valid p -> below p 1 ->
  exists r g b, gradient p = Ok (r, g, b) /\
                0 <= r <= 255 /\ 0 <= g <= 255 /\ 0 <= b <= 255.
Proof.
  intros V [Hp Hle]. pose proof (fltb_half p V Hp) as Hc.
  destruct (Py.fltb p Py.lit_0_5) eqn:Hlt.
  - destruct (gradient_top p Hp ltac:(lra) Hlt) as (g & b & _ & _ & E & Rg & Rb).
    exists 255, g, b. repeat split; try assumption; lia.
  - destruct (gradient_bottom p Hp ltac:(lra) Hlt) as (r & g & b & _ & _ & _ & E & Rr & Rg & Rb).
    exists r, g, b. repeat split; try assumption; lia.
Qed.

(** Hypotheses written with the comparisons of the script *)

Lemma one_canonical : canonical 4503599627370496 (-52).
Proof. reflexivity. Qed.

Lemma of_int_1 : Py.of_int 1 = S754_finite false 4503599627370496 (-52).
Proof. reflexivity. Qed.

Lemma one_val : SF2R (Py.of_int 1) = 1%R.
Proof.
  change (SF2R (Py.of_int 1)) with (F2R (1 * 2 ^ 52) (0 - 52)).
  rewrite F2R_shift by lia. apply F2R_0.
Qed.

Lemma unit_interval (p : spec_float) :
  valid p -> Py.fleb (Py.of_int 0) p = true -> Py.fleb p (Py.of_int 1) = true ->
  below p 1.
Proof.
  intros V H0 H1.
  destruct p as [s|[|]| |[|] m e]; try discriminate.
  - split; [exact I|]. simpl. lra.
  - split; [exact I|].
    pose proof (SFcompare_canonical m e _ _ (valid_canonical _ _ _ V) one_canonical) as C.
    rewrite of_int_1 in H1. unfold Py.fleb, SFleb in H1.
    change (F2R 4503599627370496 (-52)) with (SF2R (Py.of_int 1)) in C.
    rewrite one_val in C. simpl SF2R.
    destruct (SFcompare (S754_finite false m e) (S754_finite false 4503599627370496 (-52)))
      as [[| |]|]; try discriminate; lra.
Qed.

Lemma fltb_fleb (x y : spec_float) : Py.fltb x y = true -> Py.fleb x y = true.
Proof.
  unfold Py.fltb, Py.fleb, SFltb, SFleb.
  destruct (SFcompare x y) as [[| |]|]; congruence.
Qed.

(** Division of two integers *)

Lemma div_core_spec (k h : positive) :
  Zpos k < Zpos h ->
  let '(q, e, l) := SFdiv_core_binary 53 1024 (Zpos k) 0 (Zpos h) 0 in
  0 <= q /\ e <= 0 /\ q + 1 <= 2 ^ (- e) /\ e <= fexp64 (Zdigits2 q + e).
Proof.
  intros Hkh. unfold SFdiv_core_binary.
  set (d1 := Zdigits2 (Zpos k)). set (d2 := Zdigits2 (Zpos h)).
  assert (Hd : d1 <= d2) by (apply Zdigits2_mono; lia).
  destruct (Zdigits2_bounds (Zpos k) ltac:(lia)) as [K1 K2]. fold d1 in K1, K2.
  destruct (Zdigits2_bounds (Zpos h) ltac:(lia)) as [H1 H2]. fold d2 in H1, H2.
  pose proof (Zdigits2_pos (Zpos k) ltac:(lia)) as D1. fold d1 in D1.
  rewrite !Z.add_0_r, !Z.sub_0_r.
  set (e' := Z.min (fexp64 (d1 - d2)) 0).
  assert (He' : e' = fexp64 (d1 - d2)) by (unfold e'; rewrite fexp64_eq; lia).
  assert (Hneg : e' < 0) by (rewrite He', fexp64_eq; lia).
  replace (0 - e') with (- e') by lia.
  destruct (- e') as [|s|s] eqn:Hs; try lia.
  rewrite Z.shiftl_mul_pow2 by lia.
  assert (P : 0 < 2 ^ Z.pos s) by (apply Z.pow_pos_nonneg; lia).
  destruct (Z.div_eucl (Z.pos k * 2 ^ Z.pos s) (Z.pos h)) as [q r] eqn:Hqr.
  assert (Hq : q = Z.pos k * 2 ^ Z.pos s / Z.pos h)
    by (unfold Z.div; rewrite Hqr; reflexivity).
  assert (Q0 : 0 <= q) by (rewrite Hq; apply Z.div_pos; lia).
  assert (Q1 : q < 2 ^ Z.pos s).
  { rewrite Hq. apply Z.div_lt_upper_bound; [lia|]. nia. }
  repeat split; try lia; [rewrite Hs; lia|].
  assert (Hc : e' = -1074 \/ e' = d1 - d2 - 53)
    by (rewrite He', fexp64_eq; lia).
  destruct Hc as [Hc|Hc]; [rewrite fexp64_eq; lia|].
  assert (Q2 : 2 ^ 52 <= q).
  { rewrite Hq. apply Z.div_le_lower_bound; [lia|].
    assert (E2 : 2 ^ 52 * 2 ^ d2 = 2 ^ (d1 - 1) * 2 ^ Z.pos s).
    { rewrite <- !Z.pow_add_r by lia. f_equal. lia. }
    assert (0 < 2 ^ 52) by (apply Z.pow_pos_nonneg; lia).
    nia. }
  assert (Dq : 53 <= Zdigits2 q).
  { change 53 with (Zdigits2 (2 ^ 52)). apply Zdigits2_mono. lia. }
  rewrite fexp64_eq. lia.
Qed.

(** [k / h] with [0 <= k < h] does not raise and is a number of [[0, 1]]
    that binary64 holds. *)
Lemma truediv_unit (k h : Z) :
  0 <= k < h ->
  exists p, Py.truediv k h = Ok p /\ valid p /\ below p 1.
Proof.
  intros [Hk Hkh]. unfold Py.truediv.
  destruct (Z.eqb_spec h 0) as [|_]; [lia|].
  destruct h as [|h|h]; try lia.
  destruct k as [|k|k]; try lia.
  - exists (S754_zero false). repeat split. simpl. lra.
  - simpl Py.raw_int. unfold SFdiv, Py.prec, Py.emax. simpl xorb.
    pose proof (div_core_spec k h Hkh) as C.
    destruct (SFdiv_core_binary 53 1024 (Z.pos k) 0 (Z.pos h) 0) as [[q e] l].
    destruct C as (Q0 & E0 & Q1 & P).
    assert (Hle : (F2R (q + inexact_incr l) e <= F2R 1 0)%R).
    { apply Rle_trans with (F2R (1 * 2 ^ (- e)) (0 - - e)).
      - replace (0 - - e) with e by lia. apply F2R_le.
        unfold inexact_incr. destruct (loc_exact l); lia.
      - rewrite F2R_shift by lia. apply Rle_refl. }
    pose proof (binary_round_aux_valid false q e l Q0 P) as V.
    destruct (binary_round_aux_upper false q e l 1 0 Q0 ltac:(lia) ltac:(lia) Hle)
      as [Hz|(m & e2 & Hf & Hb)].
    + rewrite Hz. exists (S754_zero false).
      repeat split. simpl. lra.
    + rewrite Hf in *. exists (S754_finite false m e2).
      split; [reflexivity|]. split; [exact V|]. split; [exact I|].
      rewrite F2R_0 in Hb. exact Hb.
Qed.

(** ** The loop over the scanlines *)

Lemma range_length (a b : Z) : List.length (Py.range a b) = Z.to_nat (b - a).
Proof. unfold Py.range. rewrite length_map, length_seq. reflexivity. Qed.

Lemma range_In (a b y : Z) : In y (Py.range a b) <-> a <= y < b.
Proof.
  unfold Py.range. rewrite in_map_iff. split.
  - intros (i & <- & Hi). apply in_seq in Hi. lia.
  - intros Hy. exists (Z.to_nat (y - a)). split; [lia|]. apply in_seq. lia.
Qed.

Lemma range_nth (a b : Z) (i : nat) (d : Z) :
  (i < Z.to_nat (b - a))%nat -> nth i (Py.range a b) d = a + Z.of_nat i.
Proof.
  intros Hi. unfold Py.range.
  rewrite (nth_indep _ d (a + Z.of_nat 0)) by (rewrite length_map, length_seq; exact Hi).
  rewrite (map_nth (fun i => a + Z.of_nat i)), seq_nth by exact Hi. reflexivity.
Qed.

Lemma range_empty (a b : Z) : b <= a -> Py.range a b = [].
Proof.
  intros H. unfold Py.range. replace (Z.to_nat (b - a)) with 0%nat by lia. reflexivity.
Qed.

Lemma range_last (a h : Z) :
  1 <= h -> Py.range a (a + h) = Py.range a (a + h - 1) ++ [a + h - 1].
Proof.
  intros Hh. unfold Py.range.
  replace (Z.to_nat (a + h - a)) with (Z.to_nat (a + h - 1 - a) + 1)%nat by lia.
  rewrite seq_app, map_app. simpl. f_equal. f_equal. lia.
Qed.

Lemma scanline_color_ok (y0 h y : Z) :
  0 <= y - y0 < h ->
  exists p r g b,
    Py.truediv (y - y0) h = Ok p /\ valid p /\ below p 1 /\
    scanline_color y0 h y = Ok (r, g, b) /\ in_byte r /\ in_byte g /\ in_byte b.
Proof.
  intros Hy. destruct (truediv_unit _ _ Hy) as (p & Ep & V & B).
  destruct (gradient_range p V B) as (r & g & b & Eg & Rr & Rg & Rb).
  exists p, r, g, b. unfold scanline_color. rewrite Ep. simpl.
  split; [reflexivity|]. split; [exact V|]. split; [exact B|].
  split; [exact Eg|]. unfold in_byte. auto.
Qed.

Lemma draw_all_draw (op : draw_op) (l : list draw_op) (img : image) :
  draw_all l (draw op img) = draw_all (op :: l) img.
Proof.
  unfold draw_all, draw. simpl. rewrite <- app_assoc. reflexivity.
Qed.

Lemma draw_all_nil (img : image) : draw_all [] img = img.
Proof. destruct img. unfold draw_all. simpl. rewrite app_nil_r. reflexivity. Qed.

Lemma for_each_scanline (pos : Z * Z) (text : string) (fnt : font) (h : Z) (l : list Z) :
  (forall y, In y l -> 0 <= y - snd pos < h) ->
  forall img, exists cs,
    for_each (scanline pos text fnt h) l img
      = Ok (draw_all (map (fun c => Text pos text c fnt) cs) img) /\
    Forall2 (fun y c => scanline_color (snd pos) h y = Ok c) l cs.
Proof.
  induction l as [|y l IH]; intros Hl img.
  - exists []. simpl. rewrite draw_all_nil. split; [reflexivity|constructor].
  - destruct (scanline_color_ok (snd pos) h y (Hl y (or_introl eq_refl)))
      as (p & r & g & b & _ & _ & _ & Ec & _).
    destruct (IH (fun z Hz => Hl z (or_intror Hz)) (draw (Text pos text (r, g, b) fnt) img))
      as (cs & Ef & Hcs).
    exists ((r, g, b) :: cs). split.
    + simpl. unfold scanline at 1. rewrite Ec. simpl. rewrite Ef.
      rewrite draw_all_draw. reflexivity.
    + constructor; assumption.
Qed.

(** The loop does not raise: it draws the text once for each scanline of
    the range, with the colour of that scanline. *)
Lemma scanlines_spec (pos : Z * Z) (text : string) (fnt : font) (h : Z) (img : image) :
  exists cs,
    scanlines pos text fnt h img
      = Ok (draw_all (map (fun c => Text pos text c fnt) cs) img) /\
    Forall2 (fun y c => scanline_color (snd pos) h y = Ok c)
      (Py.range (snd pos) (snd pos + h)) cs.
Proof.
  apply for_each_scanline. intros y Hy. apply range_In in Hy. lia.
Qed.

(** ** The raster after the loop *)

Section Raster.

Variable glyph : font -> string -> Z * Z -> Z * Z -> bool.
Variable rrect : (Z * Z) * (Z * Z) -> Z -> Z * Z -> bool.

Lemma paint_text_twice (px : Z * Z) (acc : rgba) (pos : Z * Z) (text : string)
  (fnt : font) (c1 c2 : color) :
  paint glyph rrect px (paint glyph rrect px acc (Text pos text c1 fnt))
    (Text pos text c2 fnt)
  = paint glyph rrect px acc (Text pos text c2 fnt).
Proof.
  destruct c1 as [[r1 g1] b1], c2 as [[r2 g2] b2]. simpl.
  destruct (glyph fnt text pos px); reflexivity.
Qed.

Lemma paint_texts (px : Z * Z) (pos : Z * Z) (text : string) (fnt : font)
  (cs : list color) (c : color) : forall acc,
  fold_left (paint glyph rrect px) (map (fun c => Text pos text c fnt) (cs ++ [c])) acc
  = paint glyph rrect px acc (Text pos text c fnt).
Proof.
  induction cs as [|c1 cs IH]; intros acc; simpl.
  - reflexivity.
  - rewrite IH. apply paint_text_twice.
Qed.

(** Texts drawn one over the other at the same place leave the pixels of
    the last one. *)
Lemma pixel_draw_all_texts (img : image) (px : Z * Z) (pos : Z * Z) (text : string)
  (fnt : font) (cs : list color) (c : color) :
  pixel glyph rrect (draw_all (map (fun c => Text pos text c fnt) (cs ++ [c])) img) px
  = pixel glyph rrect (draw (Text pos text c fnt) img) px.
Proof.
  unfold pixel, draw_all, draw. simpl. rewrite !fold_left_app, paint_texts.
  reflexivity.
Qed.

End Raster.

(** ** Truncation *)

Lemma shiftl_truncates (m : positive) (e : Z) :
  (IZR (Z.shiftl (Zpos m) e) <= F2R (Zpos m) e < IZR (Z.shiftl (Zpos m) e) + 1)%R.
Proof.
  destruct (Z_le_gt_dec 0 e) as [He|He].
  - rewrite Z.shiftl_mul_pow2 by assumption.
    pose proof (F2R_shift (Zpos m) e e He) as Hs.
    rewrite Z.sub_diag, F2R_0 in Hs. rewrite Hs. lra.
  - rewrite Z.shiftl_div_pow2 by lia.
    set (k := - e). set (q := Z.pos m / 2 ^ k).
    assert (P : 0 < 2 ^ k) by (apply Z.pow_pos_nonneg; lia).
    pose proof (Z.mul_div_le (Z.pos m) (2 ^ k) P) as Hlo.
    pose proof (Z.mul_succ_div_gt (Z.pos m) (2 ^ k) P) as Hhi.
    fold q in Hlo, Hhi.
    assert (Hq : forall n, F2R (n * 2 ^ k) e = IZR n).
    { intros n. pose proof (F2R_shift n 0 k ltac:(lia)) as Hs.
      replace (0 - k) with e in Hs by lia. rewrite Hs. apply F2R_0. }
    rewrite <- (Hq q). replace (F2R (q * 2 ^ k) e + 1)%R with (F2R ((q + 1) * 2 ^ k) e)
      by (rewrite !Hq, plus_IZR; reflexivity).
    split.
    + apply F2R_le. lia.
    + unfold F2R. apply Rmult_lt_compat_r; [apply bpow_pos|]. apply IZR_lt. lia.
Qed.

Lemma int_truncates (x : spec_float) (z : Z) : Py.int x = Ok z -> truncates z x.
Proof.
  destruct x as [s|s| |s m e]; simpl; intros H; try discriminate;
    injection H as <-; unfold truncates; simpl.
  - split; intros _; lra.
  - pose proof (shiftl_truncates m e) as T.
    pose proof (F2R_pos (Zpos m) e ltac:(lia)) as P.
    destruct s; simpl cond_Zopp.
    + change (Z.neg m) with (- Z.pos m).
      replace (F2R (- Z.pos m) e) with (- F2R (Z.pos m) e)%R
        by (unfold F2R; rewrite opp_IZR; ring).
      rewrite opp_IZR. split; intros H0; lra.
    + split; intros H0; lra.
Qed.

Lemma gradient_ints (p : Py.float) (r g b : Z) :
  gradient p = Ok (r, g, b) ->
  let '(fr, fg, fb) := gradient_channels p in
  Py.int fr = Ok r /\ Py.int fg = Ok g /\ Py.int fb = Ok b.
Proof.
  unfold gradient. destruct (gradient_channels p) as [[fr fg] fb].
  destruct (Py.int fr) as [r'|]; simpl; [|discriminate].
  destruct (Py.int fg) as [g'|]; simpl; [|discriminate].
  destruct (Py.int fb) as [b'|]; simpl; [|discriminate].
  intros H. injection H as -> -> ->. auto.
Qed.

(** ** The hypotheses of the claims, written with the comparisons of Python *)

Lemma lower_half_interval (p : spec_float) :
  valid p -> Py.fleb (Py.of_int 0) p = true -> Py.fltb p Py.lit_0_5 = true ->
  nonneg p /\ (SF2R p <= / 2)%R.
Proof.
  intros V H0 H1.
  assert (Hn : nonneg p).
  { destruct p as [s|[|]| |[|] m e]; try discriminate; exact I. }
  split; [exact Hn|]. pose proof (fltb_half p V Hn) as H. rewrite H1 in H. lra.
Qed.

Lemma upper_half_interval (p : spec_float) :
  valid p -> Py.fleb Py.lit_0_5 p = true -> Py.fltb p (Py.of_int 1) = true ->
  nonneg p /\ (/ 2 <= SF2R p <= 1)%R /\ Py.fltb p Py.lit_0_5 = false.
Proof.
  intros V H0 H1.
  assert (Hn : nonneg p).
  { destruct p as [s|[|]| |[|] m e]; try discriminate; exact I. }
  destruct (unit_interval p V) as [_ Hle].
  { destruct p as [s|[|]| |[|] m e]; try discriminate; try contradiction; reflexivity. }
  { apply fltb_fleb. exact H1. }
  pose proof (fltb_half p V Hn) as H.
  destruct p as [s|[|]| |[|] m e]; try discriminate; try contradiction.
  pose proof (SFcompare_canonical _ _ m e lit_0_5_canonical (valid_canonical _ _ _ V)) as C.
  change (F2R 4503599627370496 (-53)) with (SF2R Py.lit_0_5) in C.
  rewrite lit_0_5_val in C. simpl SF2R in *.
  unfold Py.fleb, SFleb in H0. fold Py.lit_0_5 in C.
  destruct (SFcompare Py.lit_0_5 (S754_finite false m e)) as [[| |]|];
    try discriminate; try contradiction;
    (split; [exact I|]; split; [lra|]);
    destruct (Py.fltb (S754_finite false m e) Py.lit_0_5); try reflexivity; lra.
Qed.

(** ** The claims about the gradient *)

(** C1: for every binary64 [progress] with [0 <= progress < 0.5], with
    [t = progress * 2], the gradient returns
    [(255, int(20 + 150*t), int(100 - 100*t))], and both truncations
    succeed; for every [progress] with [0.5 <= progress < 1], with
    [t = (progress - 0.5) * 2], it returns
    [(int(255 - 255*t), int(170 + 85*t), int(150*t))]; and at
    [progress = 0] it returns [(255, 20, 100)]. *)
Theorem gradient_piecewise :
  (forall progress,
      valid progress ->
      Py.fleb (Py.of_int 0) progress = true ->
      Py.fltb progress Py.lit_0_5 = true ->
      let t := Py.fmul progress (Py.of_int 2) in
      exists g b,
        Py.int (Py.fadd (Py.of_int 20) (Py.fmul (Py.of_int 150) t)) = Ok g /\
        Py.int (Py.fsub (Py.of_int 100) (Py.fmul (Py.of_int 100) t)) = Ok b /\
        gradient progress = Ok (255, g, b)) /\
  (forall progress,
      valid progress ->
      Py.fleb Py.lit_0_5 progress = true ->
      Py.fltb progress (Py.of_int 1) = true ->
      let t := Py.fmul (Py.fsub progress Py.lit_0_5) (Py.of_int 2) in
      exists r g b,
        Py.int (Py.fsub (Py.of_int 255) (Py.fmul (Py.of_int 255) t)) = Ok r /\
        Py.int (Py.fadd (Py.of_int 170) (Py.fmul (Py.of_int 85) t)) = Ok g /\
        Py.int (Py.fmul (Py.of_int 150) t) = Ok b /\
        gradient progress = Ok (r, g, b)) /\
  gradient (Py.of_int 0) = Ok (255, 20, 100).
Proof.
  split; [|split].
  - intros p V H0 H1 t.
    destruct (lower_half_interval p V H0 H1) as [Hn Hle].
    destruct (gradient_top p Hn Hle H1) as (g & b & Eg & Eb & E & _).
    exists g, b. rewrite (fmul_comm (Py.of_int 150)), (fmul_comm (Py.of_int 100)).
    auto.
  - intros p V H0 H1 t.
    destruct (upper_half_interval p V H0 H1) as (Hn & Hr & Hlt).
    destruct (gradient_bottom p Hn Hr Hlt) as (r & g & b & Er & Eg & Eb & E & _).
    exists r, g, b.
    rewrite (fmul_comm (Py.of_int 255)), (fmul_comm (Py.of_int 85)),
      (fmul_comm (Py.of_int 150)).
    auto.
  - vm_compute. reflexivity.
Qed.

(** One quarter and three quarters, one [progress] for each branch. *)
Lemma gradient_piecewise_witness :
  (valid (S754_finite false 4503599627370496 (-54)) /\
   Py.fleb (Py.of_int 0) (S754_finite false 4503599627370496 (-54)) = true /\
   Py.fltb (S754_finite false 4503599627370496 (-54)) Py.lit_0_5 = true /\
   exists g b, gradient (S754_finite false 4503599627370496 (-54)) = Ok (255, g, b)) /\
  (valid (S754_finite false 6755399441055744 (-53)) /\
   Py.fleb Py.lit_0_5 (S754_finite false 6755399441055744 (-53)) = true /\
   Py.fltb (S754_finite false 6755399441055744 (-53)) (Py.of_int 1) = true /\
   exists r g b, gradient (S754_finite false 6755399441055744 (-53)) = Ok (r, g, b)).
Proof.
  split.
  - split; [reflexivity|]. split; [reflexivity|]. split; [reflexivity|].
    destruct (proj1 gradient_piecewise (S754_finite false 4503599627370496 (-54))
                eq_refl eq_refl eq_refl) as (g & b & _ & _ & E).
    exists g, b. exact E.
  - split; [reflexivity|]. split; [reflexivity|]. split; [reflexivity|].
    destruct (proj1 (proj2 gradient_piecewise) (S754_finite false 6755399441055744 (-53))
                eq_refl eq_refl eq_refl) as (r & g & b & _ & _ & _ & E).
    exists r, g, b. exact E.
Defined.

(** C4: for every binary64 [progress] in [[0, 1)] the three channels are
    the float expressions of the branch with the fractional part dropped
    by [int], nothing else is applied to them, and each lies in
    [[0, 255]]. *)
Theorem gradient_channels_in_byte_range (progress : Py.float) :
  valid progress ->
  Py.fleb (Py.of_int 0) progress = true ->
  Py.fltb progress (Py.of_int 1) = true ->
  let '(fr, fg, fb) := gradient_channels progress in
  exists r g b,
    gradient progress = Ok (r, g, b) /\
    Py.int fr = Ok r /\ Py.int fg = Ok g /\ Py.int fb = Ok b /\
    truncates r fr /\ truncates g fg /\ truncates b fb /\
    in_byte r /\ in_byte g /\ in_byte b.
Proof.
  intros V H0 H1.
  pose proof (unit_interval progress V H0 (fltb_fleb _ _ H1)) as B.
  destruct (gradient_range progress V B) as (r & g & b & E & Rr & Rg & Rb).
  pose proof (gradient_ints progress r g b E) as I.
  destruct (gradient_channels progress) as [[fr fg] fb].
  destruct I as (Ir & Ig & Ib).
  exists r, g, b. repeat split; try assumption;
    try (apply int_truncates; assumption); try apply Rr; try apply Rg; try apply Rb.
Qed.

Lemma gradient_channels_in_byte_range_witness :
  valid (S754_finite false 6755399441055744 (-53)) /\
  Py.fleb (Py.of_int 0) (S754_finite false 6755399441055744 (-53)) = true /\
  Py.fltb (S754_finite false 6755399441055744 (-53)) (Py.of_int 1) = true /\
  exists r g b,
    gradient (S754_finite false 6755399441055744 (-53)) = Ok (r, g, b) /\
    in_byte r /\ in_byte g /\ in_byte b.
Proof.
  split; [reflexivity|]. split; [reflexivity|]. split; [reflexivity|].
  pose proof (gradient_channels_in_byte_range (S754_finite false 6755399441055744 (-53))
                eq_refl eq_refl eq_refl) as H.
  destruct (gradient_channels (S754_finite false 6755399441055744 (-53))) as [[fr fg] fb].
  destruct H as (r & g & b & E & _ & _ & _ & _ & _ & _ & Rr & Rg & Rb).
  exists r, g, b. auto.
Defined.

Example gradient_quarter :
  gradient (S754_finite false 4503599627370496 (-54)) = Ok (255, 95, 50).
Proof. vm_compute. reflexivity. Qed.

Example gradient_three_quarters :
  gradient (S754_finite false 6755399441055744 (-53)) = Ok (127, 212, 75).
Proof. vm_compute. reflexivity. Qed.

(** C8: the colour is a function of [progress] alone.  Two evaluations on
    the same [progress] give the same triple, and two passes of the loop
    that reach the same [progress], on whatever images, positions, texts
    and fonts, draw with the same colour or raise the same exception. *)
Theorem gradient_deterministic (p1 p2 : Py.float) (pos1 pos2 : Z * Z)
  (text1 text2 : string) (fnt1 fnt2 : font) (h1 h2 y1 y2 : Z) (img1 img2 : image) :
  p1 = p2 ->
  Py.truediv (y1 - snd pos1) h1 = Ok p1 ->
  Py.truediv (y2 - snd pos2) h2 = Ok p2 ->
  gradient p1 = gradient p2 /\
  scanline_color (snd pos1) h1 y1 = scanline_color (snd pos2) h2 y2 /\
  match scanline pos1 text1 fnt1 h1 img1 y1, scanline pos2 text2 fnt2 h2 img2 y2 with
  | Ok i1, Ok i2 =>
      exists c, gradient p1 = Ok c /\
                i1 = draw (Text pos1 text1 c fnt1) img1 /\
                i2 = draw (Text pos2 text2 c fnt2) img2
  | Raise e1, Raise e2 => e1 = e2 /\ gradient p1 = Raise e1
  | _, _ => False
  end.
Proof.
  intros <- E1 E2. unfold scanline, scanline_color. rewrite E1, E2. simpl.
  split; [reflexivity|]. split; [reflexivity|].
  destruct (gradient p1) as [c|e]; simpl.
  - exists c. auto.
  - auto.
Qed.

(** The second scanline of two and the third of four both sit at one half. *)
Lemma gradient_deterministic_witness :
  Py.lit_0_5 = Py.lit_0_5 /\
  Py.truediv (1 - snd (0, 0)) 2 = Ok Py.lit_0_5 /\
  Py.truediv (7 - snd (3, 5)) 4 = Ok Py.lit_0_5 /\
  scanline_color (snd (0, 0)) 2 1 = scanline_color (snd (3, 5)) 4 7.
Proof.
  split; [reflexivity|]. split; [reflexivity|]. split; [reflexivity|].
  exact (proj1 (proj2 (gradient_deterministic Py.lit_0_5 Py.lit_0_5 (0, 0) (3, 5)
                         "C" "D" DefaultFont (TrueType "Arial.ttf" 28) 2 4 1 7
                         (Image_new "RGBA" (40, 40) (0, 0, 0, 255))
                         (Image_new "RGBA" (60, 60) (0, 0, 0, 255))
                         eq_refl eq_refl eq_refl))).
Defined.

(** Just below one half [int] turns the green channel into 169. *)
Example gradient_below_half :
  gradient (S754_finite false 9007199254740991 (-54)) = Ok (255, 169, 0).
Proof. vm_compute. reflexivity. Qed.

(** ** The claims about the loop *)

(** C2: with [text_height >= 1] the loop visits the scanlines [y] to
    [y + text_height - 1], one pass each; every pass draws the whole text
    at the same position with one colour; the colour of the last pass is
    the gradient at [(text_height - 1) / text_height]; and, a later
    drawing overwriting an earlier one, every pixel of the image after the
    loop is the pixel of the image with the text drawn once in that last
    colour. *)
Theorem scanline_loop_keeps_last_color (pos : Z * Z) (text : string) (fnt : font)
  (text_height : Z) (img : image) :
  1 <= text_height ->
  List.length (Py.range (snd pos) (snd pos + text_height)) = Z.to_nat text_height /\
  (forall i, (i < Z.to_nat text_height)%nat ->
     nth i (Py.range (snd pos) (snd pos + text_height)) 0 = snd pos + Z.of_nat i) /\
  exists cs c_last,
    scanlines pos text fnt text_height img
      = Ok (draw_all (map (fun c => Text pos text c fnt) (cs ++ [c_last])) img) /\
    List.length (cs ++ [c_last]) = Z.to_nat text_height /\
    (progress <- Py.truediv (text_height - 1) text_height ;; gradient progress)
      = Ok c_last /\
    forall glyph rrect px,
      pixel glyph rrect
        (draw_all (map (fun c => Text pos text c fnt) (cs ++ [c_last])) img) px
      = pixel glyph rrect (draw (Text pos text c_last fnt) img) px.
Proof.
  intros Hh. split; [|split].
  - rewrite range_length. f_equal. lia.
  - intros i Hi. apply range_nth. replace (snd pos + text_height - snd pos)
      with text_height by lia. exact Hi.
  - destruct (scanlines_spec pos text fnt text_height img) as (cs0 & E & F).
    rewrite range_last in F by exact Hh.
    apply Forall2_app_inv_l in F. destruct F as (cs & l2 & F1 & F2 & ->).
    inversion F2 as [|y c_last l l' Hc Hnil]; subst. inversion Hnil; subst.
    exists cs, c_last. split; [exact E|]. split; [|split].
    + apply Forall2_length in F1. rewrite length_app, <- F1, range_length.
      simpl. lia.
    + unfold scanline_color in Hc.
      replace (snd pos + text_height - 1 - snd pos) with (text_height - 1) in Hc by lia.
      exact Hc.
    + intros glyph rrect px. apply pixel_draw_all_texts.
Qed.

Lemma scanline_loop_keeps_last_color_witness :
  1 <= 4 /\
  exists cs c_last,
    scanlines (6, 18) "C" DefaultFont 4 (Image_new "RGBA" (40, 40) (0, 0, 0, 255))
      = Ok (draw_all (map (fun c => Text (6, 18) "C" c DefaultFont) (cs ++ [c_last]))
              (Image_new "RGBA" (40, 40) (0, 0, 0, 255))) /\
    (progress <- Py.truediv (4 - 1) 4 ;; gradient progress) = Ok c_last.
Proof.
  split; [lia|].
  destruct (scanline_loop_keeps_last_color (6, 18) "C" DefaultFont 4
              (Image_new "RGBA" (40, 40) (0, 0, 0, 255)) ltac:(lia))
    as (_ & _ & cs & c_last & E & _ & Ec & _).
  exists cs, c_last. split; [exact E|exact Ec].
Defined.

Example scanlines_of_four :
  scanlines (6, 18) "C" DefaultFont 4 (Image_new "RGBA" (40, 40) (0, 0, 0, 255))
  = Ok (draw_all [ Text (6, 18) "C" (255, 20, 100) DefaultFont;
                   Text (6, 18) "C" (255, 95, 50) DefaultFont;
                   Text (6, 18) "C" (255, 170, 0) DefaultFont;
                   Text (6, 18) "C" (127, 212, 75) DefaultFont ]
          (Image_new "RGBA" (40, 40) (0, 0, 0, 255))).
Proof. vm_compute. reflexivity. Qed.

(** ** The claims about one icon and about the batch *)

Lemma draw_all_size (l : list draw_op) (img : image) :
  im_mode (draw_all l img) = im_mode img /\ im_size (draw_all l img) = im_size img.
Proof. split; reflexivity. Qed.


Lemma render_eq (e : env) (size fs : Z) :
  font_size size = Ok fs ->
  render e size
  = scanlines
      (position size (fst (measure e "C" (resolve_font e fs) fs))
         (snd (measure e "C" (resolve_font e fs) fs)))
      "C" (resolve_font e fs) (snd (measure e "C" (resolve_font e fs) fs))
      (base_image size).
Proof.
  intros E. unfold render. rewrite E. simpl.
  destruct (measure e "C" (resolve_font e fs) fs) as [tw th]. reflexivity.
Qed.

Lemma render_ok (e : env) (size fs : Z) :
  font_size size = Ok fs ->
  exists img, render e size = Ok img /\
              im_mode img = "RGBA"%string /\ im_size img = (size, size).
Proof.
  intros E. rewrite (render_eq e size fs E).
  destruct (scanlines_spec
              (position size (fst (measure e "C" (resolve_font e fs) fs))
                 (snd (measure e "C" (resolve_font e fs) fs)))
              "C" (resolve_font e fs) (snd (measure e "C" (resolve_font e fs) fs))
              (base_image size)) as (cs & -> & _).
  eexists. split; [reflexivity|]. split; reflexivity.
Qed.

Lemma generate_icon_ok (e : env) (w : world) (name : string) (size fs : Z) :
  font_size size = Ok fs ->
  writable e ("icons/" ++ name)%string = true ->
  exists img,
    render e size = Ok img /\
    im_mode img = "RGBA"%string /\ im_size img = (size, size) /\
    generate_icon e w (name, size)
    = Ok {| dirs := dirs w;
            files := files w ++ [(("icons/" ++ name)%string, img)];
            stdout := stdout w ++ [("Generated " ++ name ++ " (" ++ Py.str size
                                    ++ "x" ++ Py.str size ++ ")")%string] |}.
Proof.
  intros E Hw. destruct (render_ok e size fs E) as (img & Er & Hm & Hs).
  exists img. repeat split; try assumption.
  unfold generate_icon, save, bind. rewrite Er. cbv beta iota. rewrite Hw.
  reflexivity.
Qed.

Lemma for_each_cons {S A : Type} (body : S -> A -> result S) (a : A) (l : list A) (s : S) :
  for_each body (a :: l) s = (s' <- body s a ;; for_each body l s').
Proof. reflexivity. Qed.

Lemma bind_Ok {A B : Type} (a : A) (k : A -> result B) : bind (Ok a) k = k a.
Proof. reflexivity. Qed.


Lemma for_each_generate (e : env) (items : list (string * Z)) :
  (forall path, writable e path = true) ->
  Forall (fun item => exists fs, font_size (snd item) = Ok fs) items ->
  forall w, exists w',
    for_each (generate_icon e) items w = Ok w' /\
    dirs w' = dirs w /\
    listing w'
    = listing w ++ map (fun item => (("icons/" ++ fst item)%string, "RGBA"%string,
                                      (snd item, snd item))) items.
Proof.
  intros Hw. induction 1 as [|[name size] items [fs Hfs] _ IH]; intros w.
  - exists w. simpl. rewrite app_nil_r. auto.
  - destruct (generate_icon_ok e w name size fs Hfs (Hw _)) as (img & _ & Hm & Hs & E).
    rewrite for_each_cons, E, bind_Ok.
    match goal with |- context [for_each _ _ ?w1] => destruct (IH w1) as (w' & E' & D' & L') end.
    exists w'. split; [exact E'|]. split; [exact D'|].
    rewrite L'. unfold listing. simpl files. rewrite map_app. simpl.
    rewrite Hm, Hs, <- app_assoc. reflexivity.
Qed.

(** C5: when every write succeeds, one run of the script writes eight
    files, in this order and of these sizes, each a square RGBA image of
    the size of its entry, whatever fonts and measures it finds. *)
Theorem main_writes_eight_icons (e : env) (w : world) :
  (forall path, writable e path = true) ->
  List.length icon_sizes = 8%nat /\
  exists w',
    main e w = Ok w' /\
    listing w'
    = listing w ++
      [ ("icons/Icon-40.png", "RGBA", (40, 40));
        ("icons/Icon-60.png", "RGBA", (60, 60));
        ("icons/Icon-58.png", "RGBA", (58, 58));
        ("icons/Icon-87.png", "RGBA", (87, 87));
        ("icons/Icon-80.png", "RGBA", (80, 80));
        ("icons/Icon-120.png", "RGBA", (120, 120));
        ("icons/Icon-180.png", "RGBA", (180, 180));
        ("icons/Icon-1024.png", "RGBA", (1024, 1024)) ]%string.
Proof.
  intros Hw. split; [reflexivity|].
  assert (F : Forall (fun item => exists fs, font_size (snd item) = Ok fs) icon_sizes).
  { unfold icon_sizes. repeat constructor; eexists; vm_compute; reflexivity. }
  destruct (for_each_generate e icon_sizes Hw F (makedirs "icons" w)) as (w' & E & _ & L).
  exists (print "All icons generated successfully!" w').
  split.
  - unfold main. rewrite E. reflexivity.
  - exact L.
Qed.



Lemma main_writes_eight_icons_witness :
  (forall path, writable bare_env path = true) /\
  exists w', main bare_env empty_world = Ok w' /\ List.length (listing w') = 8%nat.
Proof.
  split; [reflexivity|].
  destruct (main_writes_eight_icons bare_env empty_world (fun _ => eq_refl))
    as (_ & w' & E & L).
  exists w'. split; [exact E|]. rewrite L. reflexivity.
Defined.

(** The whole run on a machine without the font and without [textsize]:
    what is printed, and the last drawing call on each icon. *)
Example main_on_bare_env :
  match main bare_env empty_world with
  | Ok w =>
      dirs w = ["icons"%string] /\
      stdout w
      = [ "Generated Icon-40.png (40x40)"; "Generated Icon-60.png (60x60)";
          "Generated Icon-58.png (58x58)"; "Generated Icon-87.png (87x87)";
          "Generated Icon-80.png (80x80)"; "Generated Icon-120.png (120x120)";
          "Generated Icon-180.png (180x180)";
          "Generated Icon-1024.png (1024x1024)";
          "All icons generated successfully!" ]%string /\
      map (fun f => last (im_ops (snd f)) (Text (0, 0) "" (0, 0, 0) DefaultFont))
        (files w)
      = [ Text (6, 6) "C" (18, 248, 139) DefaultFont;
          Text (9, 9) "C" (12, 250, 142) DefaultFont;
          Text (9, 9) "C" (12, 250, 142) DefaultFont;
          Text (13, 13) "C" (8, 252, 144) DefaultFont;
          Text (12, 12) "C" (9, 251, 144) DefaultFont;
          Text (18, 18) "C" (6, 252, 146) DefaultFont;
          Text (27, 27) "C" (4, 253, 147) DefaultFont;
          Text (154, 154) "C" (0, 254, 149) DefaultFont ]
  | Raise _ => False
  end.
Proof. vm_compute. repeat split. Qed.

(** C6: a font that does not load is replaced by the default font, a
    drawing context without [textsize] is replaced by the pair
    [(font_size, font_size)], the icon is then rendered with these, and in
    every case the pass of the outer loop returns with the file written. *)
Theorem fallbacks_are_local (e : env) (w : world) (name : string) (size fs : Z) :
  font_size size = Ok fs ->
  writable e ("icons/" ++ name)%string = true ->
  (truetype_loads e "Arial.ttf" fs = false -> resolve_font e fs = DefaultFont) /\
  (has_textsize e = false -> forall fnt, measure e "C" fnt fs = (fs, fs)) /\
  (truetype_loads e "Arial.ttf" fs = false ->
     render e size
     = scanlines
         (position size (fst (measure e "C" DefaultFont fs))
            (snd (measure e "C" DefaultFont fs)))
         "C" DefaultFont (snd (measure e "C" DefaultFont fs)) (base_image size)) /\
  (has_textsize e = false ->
     render e size
     = scanlines (position size fs fs) "C" (resolve_font e fs) fs (base_image size)) /\
  exists img w',
    render e size = Ok img /\
    generate_icon e w (name, size) = Ok w' /\
    files w' = files w ++ [(("icons/" ++ name)%string, img)].
Proof.
  intros E Hw. split; [|split; [|split; [|split]]].
  - intros Ht. unfold resolve_font. rewrite Ht. reflexivity.
  - intros Hm fnt. unfold measure. rewrite Hm. reflexivity.
  - intros Ht. rewrite (render_eq e size fs E). unfold resolve_font. rewrite Ht.
    reflexivity.
  - intros Hm. rewrite (render_eq e size fs E). unfold measure. rewrite Hm.
    reflexivity.
  - destruct (generate_icon_ok e w name size fs E Hw) as (img & Er & _ & _ & Eg).
    exists img. eexists. split; [exact Er|]. split; [exact Eg|]. reflexivity.
Qed.

Lemma fallbacks_are_local_witness :
  font_size 40 = Ok 28 /\
  writable bare_env "icons/Icon-40.png" = true /\
  resolve_font bare_env 28 = DefaultFont /\
  measure bare_env "C" DefaultFont 28 = (28, 28) /\
  exists img w',
    render bare_env 40 = Ok img /\
    generate_icon bare_env empty_world ("Icon-40.png"%string, 40) = Ok w'.
Proof.
  split; [vm_compute; reflexivity|]. split; [reflexivity|].
  destruct (fallbacks_are_local bare_env empty_world "Icon-40.png" 40 28
              ltac:(vm_compute; reflexivity) eq_refl)
    as (Hf & Hm & _ & _ & img & w' & Er & Eg & _).
  split; [exact (Hf eq_refl)|]. split; [exact (Hm eq_refl DefaultFont)|].
  exists img, w'. split; [exact Er|exact Eg].
Defined.

(** C10: when the measured height is zero the range of scanlines is
    empty, so the body of the loop, whose division by [text_height] would
    raise, never runs; nothing is drawn over the background, and the pass
    of the outer loop still saves the icon. *)
Theorem zero_height_draws_nothing (e : env) (w : world) (name : string)
  (size fs text_width : Z) :
  font_size size = Ok fs ->
  has_textsize e = true ->
  textsize e "C" (resolve_font e fs) = (text_width, 0) ->
  writable e ("icons/" ++ name)%string = true ->
  Py.range (snd (position size text_width 0)) (snd (position size text_width 0) + 0) = [] /\
  (forall k, Py.truediv k 0 = Raise ZeroDivisionError) /\
  (forall y, scanline_color (snd (position size text_width 0)) 0 y
             = Raise ZeroDivisionError) /\
  render e size = Ok (base_image size) /\
  im_ops (base_image size)
  = [RoundedRectangle ((0, 0), (size, size)) (size / 5) (0, 0, 0, 255)] /\
  exists w',
    generate_icon e w (name, size) = Ok w' /\
    files w' = files w ++ [(("icons/" ++ name)%string, base_image size)].
Proof.
  intros E Hh Ht Hw.
  assert (Hr : forall a, Py.range a (a + 0) = []) by (intros a; apply range_empty; lia).
  assert (Er : render e size = Ok (base_image size)).
  { rewrite (render_eq e size fs E). unfold measure. rewrite Hh, Ht.
    unfold scanlines. simpl fst. simpl snd. rewrite Hr. reflexivity. }
  split; [apply Hr|]. split; [reflexivity|]. split; [reflexivity|].
  split; [exact Er|]. split; [reflexivity|].
  eexists. split.
  - unfold generate_icon, save, bind. rewrite Er. cbv beta iota. rewrite Hw.
    reflexivity.
  - reflexivity.
Qed.


Lemma zero_height_draws_nothing_witness :
  font_size 40 = Ok 28 /\
  has_textsize flat_env = true /\
  textsize flat_env "C" (resolve_font flat_env 28) = (20, 0) /\
  writable flat_env "icons/Icon-40.png" = true /\
  render flat_env 40 = Ok (base_image 40).
Proof.
  split; [vm_compute; reflexivity|]. split; [reflexivity|]. split; [reflexivity|].
  split; [reflexivity|].
  exact (proj1 (proj2 (proj2 (proj2
           (zero_height_draws_nothing flat_env empty_world "Icon-40.png" 40 28 20
              ltac:(vm_compute; reflexivity) eq_refl eq_refl eq_refl))))).
Defined.

(** ** The font size *)

(** C3 as the specification states it does not hold: on the third icon
    [int] gives 40 where rounding to nearest gives 41. *)
Lemma font_size_is_not_rounded :
  ~ (forall name size, In (name, size) icon_sizes ->
                       font_size size = spec_font_size size).
Proof.
  intros H. specialize (H "Icon-58.png"%string 58).
  assert (Hin : In ("Icon-58.png"%string, 58) icon_sizes)
    by (unfold icon_sizes; simpl; auto 10).
  specialize (H Hin). vm_compute in H. discriminate H.
Qed.

(** C3, amended: for every icon of the list the font size is the binary64
    product [size * 0.7] with its fractional part dropped, which is 28, 42,
    40, 60, 56, 84, 125 and 716 for the eight icons.  Rendering the icon
    asks for Arial at that size and draws with it when it loads, and
    without [textsize] it takes that same number for the width and for the
    height of the text: it centres a box of that size and draws that many
    scanlines. *)
Theorem font_size_truncates (e : env) (name : string) (size : Z) :
  In (name, size) icon_sizes ->
  exists fs,
    font_size size = Ok fs /\
    truncates fs (Py.fmul (Py.of_int size) Py.lit_0_7) /\
    In (size, fs) [(40, 28); (60, 42); (58, 40); (87, 60); (80, 56); (120, 84);
                   (180, 125); (1024, 716)] /\
    let fnt := if truetype_loads e "Arial.ttf" fs
               then TrueType "Arial.ttf" fs else DefaultFont in
    exists tw th cs,
      render e size
      = Ok (draw_all (map (fun c => Text (position size tw th) "C" c fnt) cs)
              (base_image size)) /\
      List.length cs = Z.to_nat th /\
      if has_textsize e then (tw, th) = textsize e "C" fnt
      else tw = fs /\ th = fs.
Proof.
  intros Hin.
  assert (Hfs : exists fs, font_size size = Ok fs /\
            In (size, fs) [(40, 28); (60, 42); (58, 40); (87, 60); (80, 56);
                           (120, 84); (180, 125); (1024, 716)]).
  { unfold icon_sizes in Hin. simpl in Hin.
    repeat (destruct Hin as [Hin|Hin];
            [injection Hin as _ <-; eexists; split;
             [vm_compute; reflexivity|simpl; auto 10]|]).
    contradiction. }
  destruct Hfs as (fs & E & Hl). exists fs.
  split; [exact E|]. split; [apply int_truncates; exact E|]. split; [exact Hl|].
  intros fnt.
  exists (fst (measure e "C" fnt fs)), (snd (measure e "C" fnt fs)).
  rewrite (render_eq e size fs E). change (resolve_font e fs) with fnt.
  set (tw := fst (measure e "C" fnt fs)). set (th := snd (measure e "C" fnt fs)).
  destruct (scanlines_spec (position size tw th) "C" fnt th (base_image size))
    as (cs & Er & F).
  exists cs. split; [exact Er|]. split.
  - apply Forall2_length in F. rewrite <- F, range_length. f_equal. lia.
  - unfold tw, th, measure. destruct (has_textsize e).
    + destruct (textsize e "C" fnt). reflexivity.
    + split; reflexivity.
Qed.

Lemma font_size_truncates_witness :
  In ("Icon-180.png"%string, 180) icon_sizes /\
  spec_font_size 180 = Ok 126 /\
  exists cs,
    render arial_at_125 180
    = Ok (draw_all (map (fun c => Text (27, 27) "C" c (TrueType "Arial.ttf" 125)) cs)
            (base_image 180)) /\
    List.length cs = 125%nat.
Proof.
  assert (Hin : In ("Icon-180.png"%string, 180) icon_sizes)
    by (unfold icon_sizes; simpl; auto 10).
  split; [exact Hin|]. split; [vm_compute; reflexivity|].
  destruct (font_size_truncates arial_at_125 "Icon-180.png" 180 Hin)
    as (fs & E & _ & _ & H).
  vm_compute in E. injection E as <-.
  destruct H as (tw & th & cs & Er & L & Hm).
  destruct Hm as [-> ->]. exists cs. split; [exact Er|exact L].
Defined.

(** ** Centering *)

(** C7: the draw position is the floor of half the free space, in both
    directions: [x] is the integer with [2x <= size - text_width < 2x + 2],
    and the same for [y], also when the glyph is larger than the icon. *)
Theorem position_is_floor_of_half (size text_width text_height : Z) :
  let (x, y) := position size text_width text_height in
  x = (size - text_width) / 2 /\ y = (size - text_height) / 2 /\
  2 * x <= size - text_width < 2 * x + 2 /\
  2 * y <= size - text_height < 2 * y + 2 /\
  (IZR x <= IZR (size - text_width) / 2 < IZR x + 1)%R /\
  (IZR y <= IZR (size - text_height) / 2 < IZR y + 1)%R.
Proof.
  unfold position.
  assert (H : forall a, 2 * (a / 2) <= a < 2 * (a / 2) + 2).
  { intros a. pose proof (Z.div_mod a 2 ltac:(lia)).
    pose proof (Z.mod_pos_bound a 2 ltac:(lia)). lia. }
  assert (HR : forall a, (IZR (a / 2) <= IZR a / 2 < IZR (a / 2) + 1)%R).
  { intros a. destruct (H a) as [Hlo Hhi].
    apply IZR_le in Hlo. apply IZR_lt in Hhi.
    rewrite mult_IZR in Hlo. rewrite plus_IZR, mult_IZR in Hhi. lra. }
  repeat split; try apply H; try apply HR.
Qed.

(** * Further properties of the script *)

(** *** Rounding never goes below a bound that the format holds *)

Lemma shift_above (m e N E : Z) :
  0 <= m -> 0 < N < 2 ^ 53 -> -1074 <= E ->
  (F2R N E <= F2R m e)%R ->
  (F2R N E <= F2R (m / 2 ^ Z.max (fexp64 (Zdigits2 m + e) - e) 0)
                  (e + Z.max (fexp64 (Zdigits2 m + e) - e) 0))%R.
Proof.
  intros Hm HN HE Hle.
  set (k := Z.max (fexp64 (Zdigits2 m + e) - e) 0).
  assert (Hk : k = 0 \/ 0 < k) by (unfold k; lia). destruct Hk as [K0|Kpos].
  - rewrite K0, Z.pow_0_r, Z.div_1_r, Z.add_0_r. exact Hle.
  - assert (Ee : e + k = fexp64 (Zdigits2 m + e))
      by (clear - Kpos; unfold k in Kpos |- *; lia).
    assert (P : 0 < 2 ^ k) by (apply Z.pow_pos_nonneg; lia).
    assert (Hpos : 0 < m).
    { destruct (Z_lt_le_dec 0 m) as [|Hz]; [assumption|].
      assert (m = 0) by lia. subst m.
      pose proof (F2R_pos N E ltac:(lia)). unfold F2R in Hle at 2.
      rewrite Rmult_0_l in Hle. lra. }
    destruct (Z_le_gt_dec (e + k) E) as [HeE|HeE].
    + set (N' := N * 2 ^ (E - (e + k))).
      assert (HN' : F2R N' (e + k) = F2R N E).
      { unfold N'. replace (e + k) with (E - (E - (e + k))) at 2 by lia.
        apply F2R_shift. lia. }
      rewrite <- HN'. apply F2R_le. apply Z.div_le_lower_bound; [assumption|].
      apply (F2R_le_inv _ _ e). rewrite Z.mul_comm.
      replace e with (e + k - k) at 1 by lia. rewrite F2R_shift by lia.
      rewrite HN'. exact Hle.
    + rewrite fexp64_eq in Ee.
      assert (Hd : k = Zdigits2 m - 53) by lia.
      destruct (Zdigits2_bounds m Hpos) as [Dlo _].
      assert (Hq : 2 ^ 52 <= m / 2 ^ k).
      { apply Z.div_le_lower_bound; [assumption|].
        rewrite <- Z.pow_add_r by lia.
        replace (k + 52) with (Zdigits2 m - 1) by lia. exact Dlo. }
      apply Rle_trans with (bpow (52 + (e + k))); [|apply F2R_ge_bpow; lia].
      apply Rle_trans with (bpow (53 + E)); [|apply bpow_le; lia].
      apply Rlt_le, F2R_lt_bpow; lia.
Qed.

Lemma binary_round_aux_above (mx ex : Z) (l : location) (N E : Z) :
  0 <= mx -> 0 < N < 2 ^ 53 -> -1074 <= E ->
  (F2R N E <= F2R mx ex)%R ->
  nonneg (binary_round_aux 53 1024 false mx ex l) ->
  (F2R N E <= SF2R (binary_round_aux 53 1024 false mx ex l))%R.
Proof.
  intros Hmx HN HE Hle.
  destruct (binary_round_aux_spec false mx ex l Hmx) as (m1 & B & _ & ->).
  cbv zeta in *.
  set (k1 := Z.max (fexp64 (Zdigits2 mx + ex) - ex) 0) in *.
  set (k2 := Z.max (fexp64 (Zdigits2 m1 + (ex + k1)) - (ex + k1)) 0).
  assert (Hk1 : 0 <= k1) by (unfold k1; lia).
  assert (P1 : 0 < 2 ^ k1) by (apply Z.pow_pos_nonneg; lia).
  assert (Hm1 : 0 <= m1).
  { assert (0 <= mx / 2 ^ k1) by (apply Z.div_pos; lia). lia. }
  assert (A : (F2R N E <= F2R m1 (ex + k1))%R).
  { apply Rle_trans with (F2R (mx / 2 ^ k1) (ex + k1)).
    - apply shift_above; assumption.
    - apply F2R_le. lia. }
  pose proof (shift_above m1 (ex + k1) N E Hm1 HN HE A) as C. fold k2 in C.
  pose proof (F2R_pos N E ltac:(lia)) as PN.
  destruct (m1 / 2 ^ k2) as [|m|m] eqn:Hq.
  - unfold F2R in C at 2. rewrite Rmult_0_l in C. lra.
  - destruct (ex + k1 + k2 <=? 1024 - 53); simpl; [|contradiction].
    intros _. exact C.
  - simpl. contradiction.
Qed.

Lemma fmul_above (x y : spec_float) (N E : Z) :
  nonneg x -> nonneg y -> 0 < N < 2 ^ 53 -> -1074 <= E ->
  (F2R N E <= SF2R x * SF2R y)%R ->
  nonneg (SFmul 53 1024 x y) ->
  (F2R N E <= SF2R (SFmul 53 1024 x y))%R.
Proof.
  intros Hx Hy HN HE Hle.
  pose proof (F2R_pos N E ltac:(lia)) as PN.
  destruct x as [sx|sx| |[|] mx ex]; try contradiction;
    destruct y as [sy|sy| |[|] my ey]; try contradiction;
    try (simpl in Hle; rewrite ?Rmult_0_l, ?Rmult_0_r in Hle; lra).
  unfold SFmul. simpl xorb. apply binary_round_aux_above; try assumption; [lia|].
  rewrite Pos2Z.inj_mul, F2R_mul. exact Hle.
Qed.

Lemma binary_round_above (mx : positive) (ex N E : Z) :
  0 < N < 2 ^ 53 -> -1074 <= E ->
  (F2R N E <= F2R (Zpos mx) ex)%R ->
  nonneg (binary_round 53 1024 false mx ex) ->
  (F2R N E <= SF2R (binary_round 53 1024 false mx ex))%R.
Proof.
  intros HN HE Hle. unfold binary_round.
  destruct (shl_align_spec mx ex (fexp64 (Z.pos (digits2_pos mx) + ex))) as [Hv _].
  destruct (shl_align mx ex (fexp64 (Z.pos (digits2_pos mx) + ex))) as [mz ez].
  simpl in Hv. apply binary_round_aux_above; try assumption; [lia|].
  rewrite Hv. exact Hle.
Qed.

Lemma fadd_above (x y : spec_float) (N E : Z) :
  nonneg x -> nonneg y -> 0 < N < 2 ^ 53 -> -1074 <= E ->
  (F2R N E <= SF2R x + SF2R y)%R ->
  nonneg (SFadd 53 1024 x y) ->
  (F2R N E <= SF2R (SFadd 53 1024 x y))%R.
Proof.
  intros Hx Hy HN HE Hle.
  pose proof (F2R_pos N E ltac:(lia)) as PN.
  destruct x as [sx|sx| |[|] mx ex]; try contradiction;
    destruct y as [sy|sy| |[|] my ey]; try contradiction.
  - simpl in Hle. lra.
  - intros _. simpl in *. lra.
  - intros _. simpl in *. lra.
  - unfold SFadd.
    destruct (shl_align_spec mx ex (Z.min ex ey)) as [Vx Ex].
    destruct (shl_align_spec my ey (Z.min ex ey)) as [Vy Ey].
    rewrite Ex in Vx by lia. rewrite Ey in Vy by lia.
    simpl cond_Zopp. simpl binary_normalize.
    apply binary_round_above; try assumption.
    rewrite Pos2Z.inj_add, F2R_add, Vx, Vy. exact Hle.
Qed.

Lemma fsub_above (x y : spec_float) (N E : Z) :
  nonneg x -> nonneg y -> 0 < N < 2 ^ 53 -> -1074 <= E ->
  (F2R N E <= SF2R x - SF2R y)%R ->
  nonneg (SFsub 53 1024 x y) ->
  (F2R N E <= SF2R (SFsub 53 1024 x y))%R.
Proof.
  intros Hx Hy HN HE Hle.
  pose proof (F2R_pos N E ltac:(lia)) as PN.
  pose proof (SF2R_nonneg x Hx) as Px. pose proof (SF2R_nonneg y Hy) as Py.
  destruct x as [sx|sx| |[|] mx ex]; try contradiction;
    destruct y as [sy|sy| |[|] my ey]; try contradiction.
  - simpl in Hle. lra.
  - intros _. simpl in *. lra.
  - unfold SFsub.
    destruct (shl_align_spec mx ex (Z.min ex ey)) as [Vx Ex].
    destruct (shl_align_spec my ey (Z.min ex ey)) as [Vy Ey].
    rewrite Ex in Vx by lia. rewrite Ey in Vy by lia.
    simpl cond_Zopp. simpl in Hle.
    set (ax := fst (shl_align mx ex (Z.min ex ey))) in *.
    set (ay := fst (shl_align my ey (Z.min ex ey))) in *.
    assert (Hv : F2R (Z.pos ax - Z.pos ay) (Z.min ex ey)
                 = (F2R (Z.pos mx) ex - F2R (Z.pos my) ey)%R)
      by (rewrite F2R_sub, Vx, Vy; reflexivity).
    destruct (Z.pos ax - Z.pos ay) as [|d|d] eqn:Hd.
    + unfold F2R in Hv at 1. rewrite Rmult_0_l in Hv. lra.
    + simpl binary_normalize. apply binary_round_above; try assumption.
      rewrite Hv. exact Hle.
    + exfalso. assert (F2R (Z.neg d) (Z.min ex ey) < 0)%R.
      { unfold F2R. pose proof (bpow_pos (Z.min ex ey)).
        assert (IZR (Z.neg d) < 0)%R by (apply IZR_lt; lia). nra. }
      lra.
Qed.

Lemma int_above (x : spec_float) (n z : Z) :
  (IZR n <= SF2R x)%R -> 0 <= n -> Py.int x = Ok z -> n <= z.
Proof.
  intros Hle Hn E. destruct (int_truncates x z E) as [T _].
  assert (H0 : (0 <= SF2R x)%R).
  { apply Rle_trans with (2 := Hle). apply IZR_le. exact Hn. }
  destruct (T H0) as [_ Hhi].
  assert (IZR n < IZR (z + 1))%R by (rewrite plus_IZR; lra).
  apply lt_IZR in H. lia.
Qed.

(** [float(n)] is [n] for a natural number below [2 ^ 53]. *)
Lemma of_int_exact (n : Z) :
  0 <= n < 2 ^ 53 -> nonneg (Py.of_int n) /\ SF2R (Py.of_int n) = IZR n.
Proof.
  intros [Hlo Hhi]. destruct n as [|p|p]; try lia.
  - split; [exact I|reflexivity].
  - unfold Py.of_int, Py.prec, Py.emax. simpl binary_normalize.
    assert (D : dyadic (Z.pos p) 0) by (split; lia).
    destruct (binary_round_below p 0 (Z.pos p) 0 D (Rle_refl _)) as [Hn Hb].
    split; [exact Hn|].
    pose proof (binary_round_above p 0 (Z.pos p) 0 ltac:(lia) ltac:(lia)
                  (Rle_refl _) Hn) as Ha.
    rewrite F2R_0 in Hb, Ha. lra.
Qed.

(** ** More on the division of line 46 *)

Lemma new_location_exact (h r : Z) : loc_exact (new_location h r) = (r =? 0).
Proof.
  unfold new_location, new_location_even, new_location_odd.
  destruct (Z.even h); destruct (r =? 0); reflexivity.
Qed.

Lemma div_core_strict (k h : positive) :
  Zpos k < Zpos h <= 2 ^ 53 ->
  let '(q, e, l) := SFdiv_core_binary 53 1024 (Zpos k) 0 (Zpos h) 0 in
  0 <= q /\ e <= -53 /\
  q + inexact_incr l <= (2 ^ 53 - 1) * 2 ^ (- e - 53).
Proof.
  intros [Hkh Hh]. unfold SFdiv_core_binary.
  set (d1 := Zdigits2 (Zpos k)). set (d2 := Zdigits2 (Zpos h)).
  assert (Hd : d1 <= d2) by (apply Zdigits2_mono; lia).
  rewrite !Z.add_0_r, !Z.sub_0_r.
  set (e' := Z.min (fexp64 (d1 - d2)) 0).
  assert (He' : e' <= -53) by (unfold e'; rewrite fexp64_eq; lia).
  replace (0 - e') with (- e') by lia.
  destruct (- e') as [|s|s] eqn:Hs; try lia.
  rewrite Z.shiftl_mul_pow2 by lia.
  destruct (Z.div_eucl (Z.pos k * 2 ^ Z.pos s) (Z.pos h)) as [q r] eqn:Hqr.
  assert (Hq : q = Z.pos k * 2 ^ Z.pos s / Z.pos h)
    by (unfold Z.div; rewrite Hqr; reflexivity).
  assert (Hr : r = (Z.pos k * 2 ^ Z.pos s) mod Z.pos h)
    by (unfold Z.modulo; rewrite Hqr; reflexivity).
  pose proof (Z.div_mod (Z.pos k * 2 ^ Z.pos s) (Z.pos h) ltac:(lia)) as Hdm.
  pose proof (Z.mod_pos_bound (Z.pos k * 2 ^ Z.pos s) (Z.pos h) ltac:(lia)) as Hmb.
  rewrite <- Hq, <- Hr in Hdm. rewrite <- Hr in Hmb.
  assert (P : 0 < 2 ^ Z.pos s) by (apply Z.pow_pos_nonneg; lia).
  assert (Q0 : 0 <= q) by (rewrite Hq; apply Z.div_pos; lia).
  split; [exact Q0|]. split; [exact He'|].
  rewrite Hs. set (T := 2 ^ (Z.pos s - 53)).
  assert (PT : 0 < T) by (apply Z.pow_pos_nonneg; lia).
  assert (ET : 2 ^ Z.pos s = 2 ^ 53 * T).
  { unfold T. rewrite <- Z.pow_add_r by lia. f_equal. lia. }
  unfold inexact_incr. rewrite new_location_exact.
  assert (Hb : q * Z.pos h + r <= Z.pos h * ((2 ^ 53 - 1) * T)).
  { rewrite Z.mul_comm, <- Hdm, ET. nia. }
  destruct (Z.eqb_spec r 0) as [R0|R0]; nia.
Qed.

(** With [0 <= k < h] and [h] at most [2 ^ 53] the quotient is at most the
    number just below one. *)
Lemma truediv_below_one (k h : Z) :
  0 <= k < h -> h <= 2 ^ 53 ->
  exists p, Py.truediv k h = Ok p /\ valid p /\ below p (F2R (2 ^ 53 - 1) (-53)).
Proof.
  intros [Hk Hkh] Hh. unfold Py.truediv.
  destruct (Z.eqb_spec h 0) as [|_]; [lia|].
  destruct h as [|h|h]; try lia.
  destruct k as [|k|k]; try lia.
  - exists (S754_zero false). repeat split. simpl.
    apply Rlt_le, F2R_pos. lia.
  - simpl Py.raw_int. unfold SFdiv, Py.prec, Py.emax. simpl xorb.
    pose proof (div_core_spec k h Hkh) as C.
    pose proof (div_core_strict k h (conj Hkh Hh)) as S.
    destruct (SFdiv_core_binary 53 1024 (Z.pos k) 0 (Z.pos h) 0) as [[q e] l].
    destruct C as (Q0 & _ & _ & P). destruct S as (_ & E53 & Hq).
    assert (Hle : (F2R (q + inexact_incr l) e <= F2R (2 ^ 53 - 1) (-53))%R).
    { apply Rle_trans with (F2R ((2 ^ 53 - 1) * 2 ^ (- e - 53)) (-53 - (- e - 53))).
      - replace (-53 - (- e - 53)) with e by lia. apply F2R_le. exact Hq.
      - rewrite F2R_shift by lia. apply Rle_refl. }
    pose proof (binary_round_aux_valid false q e l Q0 P) as V.
    destruct (binary_round_aux_upper false q e l (2 ^ 53 - 1) (-53) Q0
                ltac:(lia) ltac:(lia) Hle) as [Hz|(m & e2 & Hf & Hb)].
    + rewrite Hz. exists (S754_zero false). repeat split. simpl.
      apply Rlt_le, F2R_pos. lia.
    + rewrite Hf in *. exists (S754_finite false m e2).
      split; [reflexivity|]. split; [exact V|]. split; [exact I|exact Hb].
Qed.

Lemma below_one_lt : (F2R (2 ^ 53 - 1) (-53) < 1)%R.
Proof.
  rewrite <- (F2R_0 1). rewrite <- (F2R_shift 1 0 53) by lia.
  unfold F2R. apply Rmult_lt_compat_r; [apply bpow_pos|]. apply IZR_lt. lia.
Qed.

Lemma fleb_zero (p : spec_float) : nonneg p -> Py.fleb (Py.of_int 0) p = true.
Proof. destruct p as [s|s| |[|] m e]; simpl; intros H; try contradiction; reflexivity. Qed.

Lemma compare_one (p : spec_float) :
  valid p -> nonneg p ->
  ((SF2R p <= 1)%R -> Py.fleb p (Py.of_int 1) = true) /\
  ((SF2R p < 1)%R -> Py.fltb p (Py.of_int 1) = true).
Proof.
  intros V Hn. rewrite of_int_1. unfold Py.fleb, Py.fltb, SFleb, SFltb.
  destruct p as [s|s| |[|] m e]; try contradiction.
  - split; reflexivity.
  - pose proof (SFcompare_canonical m e _ _ (valid_canonical _ _ _ V) one_canonical) as C.
    change (F2R 4503599627370496 (-52)) with (SF2R (Py.of_int 1)) in C.
    rewrite one_val in C. simpl SF2R.
    destruct (SFcompare (S754_finite false m e) (S754_finite false 4503599627370496 (-52)))
      as [[| |]|]; try contradiction; split; intros H; try reflexivity; lra.
Qed.

(** X1: [progress = k / h] of line 46, for a scanline [0 <= k < h]: the
    division does not raise, its result is a binary64 number with
    [0 <= progress <= 1] for Python, it is zero on the first scanline, and
    [progress < 1] as long as the height is at most [2 ^ 53]. *)
Theorem progress_in_unit_interval (k h : Z) :
  0 <= k < h ->
  exists progress,
    Py.truediv k h = Ok progress /\ valid progress /\
    Py.fleb (Py.of_int 0) progress = true /\
    Py.fleb progress (Py.of_int 1) = true /\
    (k = 0 -> progress = S754_zero false) /\
    (h <= 2 ^ 53 -> Py.fltb progress (Py.of_int 1) = true).
Proof.
  intros Hk. destruct (truediv_unit k h Hk) as (p & E & V & [Hn Hle]).
  exists p. split; [exact E|]. split; [exact V|].
  split; [apply fleb_zero; exact Hn|].
  split; [apply (compare_one p V Hn); exact Hle|]. split.
  - intros ->. unfold Py.truediv in E.
    destruct (Z.eqb_spec h 0) as [|_]; [lia|].
    destruct h as [|h|h]; try lia. simpl in E. injection E as <-. reflexivity.
  - intros Hh. destruct (truediv_below_one k h Hk Hh) as (p' & E' & _ & [_ Hb]).
    rewrite E in E'. injection E' as <-.
    apply (compare_one p V Hn). pose proof below_one_lt. lra.
Qed.

Lemma progress_in_unit_interval_witness :
  0 <= 27 < 28 /\
  exists progress, Py.truediv 27 28 = Ok progress /\
                   Py.fltb progress (Py.of_int 1) = true.
Proof.
  split; [lia|].
  destruct (progress_in_unit_interval 27 28 ltac:(lia))
    as (p & E & _ & _ & _ & _ & H).
  exists p. split; [exact E|]. apply H. lia.
Defined.

(** Beyond [2 ^ 53] the quotient can round to one. *)
Example progress_rounds_to_one :
  Py.truediv (2 ^ 60 - 1) (2 ^ 60) = Ok (Py.of_int 1) /\
  gradient (Py.of_int 1) = Ok (0, 255, 150).
Proof. split; vm_compute; reflexivity. Qed.

(** ** The range of each channel on each half *)

(** X2: on the upper half, [0 <= progress < 0.5], the colour is
    [(255, g, b)] with [20 <= g <= 170] and [0 <= b <= 100]; on the lower
    half, [0.5 <= progress <= 1], it is [(r, g, b)] with [0 <= r <= 255],
    [170 <= g <= 255] and [0 <= b <= 150]. *)
Theorem gradient_ranges_by_half (progress : Py.float) :
  valid progress ->
  Py.fleb (Py.of_int 0) progress = true ->
  Py.fleb progress (Py.of_int 1) = true ->
  exists r g b,
    gradient progress = Ok (r, g, b) /\
    if Py.fltb progress Py.lit_0_5
    then r = 255 /\ 20 <= g <= 170 /\ 0 <= b <= 100
    else 0 <= r <= 255 /\ 170 <= g <= 255 /\ 0 <= b <= 150.
Proof.
  intros V H0 H1.
  destruct (unit_interval progress V H0 H1) as [Hn Hle].
  pose proof (fltb_half progress V Hn) as Hc.
  destruct (Py.fltb progress Py.lit_0_5) eqn:Hlt.
  - destruct (gradient_top progress Hn ltac:(lra) Hlt)
      as (g & b & Eg & Eb & E & Rg & Rb).
    exists 255, g, b. split; [exact E|]. split; [reflexivity|]. split; [|lia].
    split; [|lia].
    assert (Ht : below (Py.fmul progress (Py.of_int 2)) 1).
    { rewrite <- (F2R_0 1). apply double_below; [assumption|apply dyadic_int; lia|].
      rewrite F2R_0. lra. }
    pose proof (scale_below _ 150 Ht ltac:(lia) const_150) as H150.
    destruct (below_nonneg _ _ H150) as [A0 A1]. destruct const_20 as [N20 V20].
    assert (Hg : below (Py.fadd (Py.of_int 20)
                          (Py.fmul (Py.fmul progress (Py.of_int 2)) (Py.of_int 150)))
                   (IZR 170)).
    { apply below_int, fadd_below; [assumption|apply H150|apply dyadic_int; lia|].
      rewrite V20, F2R_0. lra. }
    refine (int_above _ 20 g _ ltac:(lia) Eg).
    rewrite <- (F2R_0 20). apply fadd_above; try assumption; try lia.
    + apply H150.
    + rewrite V20, F2R_0. lra.
    + apply Hg.
  - destruct (gradient_bottom progress Hn ltac:(lra) Hlt)
      as (r & g & b & Er & Eg & Eb & E & Rr & Rg & Rb).
    exists r, g, b. split; [exact E|]. split; [lia|]. split; [|lia].
    split; [|lia].
    assert (Hd : below (Py.fsub progress Py.lit_0_5) (F2R 1 (-1))).
    { apply fsub_below; [assumption|exact I|split; lia| |];
        rewrite lit_0_5_val; rewrite ?F2R_half; lra. }
    assert (Ht : below (Py.fmul (Py.fsub progress Py.lit_0_5) (Py.of_int 2)) 1).
    { rewrite <- (F2R_0 1). apply double_below; [apply Hd|apply dyadic_int; lia|].
      destruct Hd as [_ Hd]. rewrite F2R_half in Hd. rewrite F2R_0. lra. }
    pose proof (scale_below _ 85 Ht ltac:(lia) const_85) as H85.
    destruct (below_nonneg _ _ H85) as [A0 A1]. destruct const_170 as [N170 V170].
    assert (Hg : below (Py.fadd (Py.of_int 170)
                          (Py.fmul (Py.fmul (Py.fsub progress Py.lit_0_5) (Py.of_int 2))
                             (Py.of_int 85)))
                   (IZR 255)).
    { apply below_int, fadd_below; [assumption|apply H85|apply dyadic_int; lia|].
      rewrite V170, F2R_0. lra. }
    refine (int_above _ 170 g _ ltac:(lia) Eg).
    rewrite <- (F2R_0 170). apply fadd_above; try assumption; try lia.
    + apply H85.
    + rewrite V170, F2R_0. lra.
    + apply Hg.
Qed.

Lemma gradient_ranges_by_half_witness :
  valid (Py.of_int 1) /\
  Py.fleb (Py.of_int 0) (Py.of_int 1) = true /\
  Py.fleb (Py.of_int 1) (Py.of_int 1) = true /\
  exists r g b, gradient (Py.of_int 1) = Ok (r, g, b) /\ 170 <= g <= 255.
Proof.
  split; [reflexivity|]. split; [reflexivity|]. split; [reflexivity|].
  destruct (gradient_ranges_by_half (Py.of_int 1) eq_refl eq_refl eq_refl)
    as (r & g & b & E & H).
  exists r, g, b. split; [exact E|].
  change (Py.fltb (Py.of_int 1) Py.lit_0_5) with false in H. apply H.
Defined.

(** ** The font size and the box of the glyph *)

Lemma bpow_m4 : bpow (-4) = (/ 16)%R.
Proof. unfold bpow. simpl. lra. Qed.

Lemma lit_0_7_val : SF2R Py.lit_0_7 = (6305039478318694 / 9007199254740992)%R.
Proof.
  simpl SF2R. simpl cond_Zopp.
  pose proof (F2R_shift 1 0 53 ltac:(lia)) as H. rewrite F2R_0 in H.
  unfold F2R in *. change (0 - 53) with (-53) in H.
  change (1 * 2 ^ 53) with 9007199254740992 in H.
  set (c := bpow (-53)) in *. lra.
Qed.

(** X3: for an icon size below [2 ^ 48] the font size is defined and is
    the integer part of seven tenths of the size, or one less: the literal
    [0.7] is a little below seven tenths, so the product can fall just
    under an integer, as it does for 180. *)
Theorem font_size_bounds (size : Z) :
  0 <= size < 2 ^ 48 ->
  exists fs,
    font_size size = Ok fs /\
    0 <= fs /\ 7 * size / 10 - 1 <= fs <= 7 * size / 10.
Proof.
  intros [Hlo Hhi]. set (F := 7 * size / 10).
  assert (HF : 10 * F <= 7 * size < 10 * F + 10).
  { unfold F. pose proof (Z.div_mod (7 * size) 10 ltac:(lia)).
    pose proof (Z.mod_pos_bound (7 * size) 10 ltac:(lia)). lia. }
  assert (HF0 : 0 <= F) by lia.
  destruct (of_int_exact size ltac:(lia)) as [Nn Vn].
  assert (N7 : nonneg Py.lit_0_7) by exact I.
  pose proof lit_0_7_val as V7.
  assert (Rs : (0 <= IZR size <= 281474976710656)%R).
  { split; [apply IZR_le; lia|]. apply IZR_le. change 281474976710656 with (2 ^ 48). lia. }
  assert (RF : (10 * IZR F <= 7 * IZR size <= 10 * IZR F + 9)%R).
  { destruct HF as [A B]. apply IZR_le in A.
    assert (C : 7 * size <= 10 * F + 9) by lia. apply IZR_le in C.
    rewrite !mult_IZR in A. rewrite plus_IZR, !mult_IZR in C. lra. }
  assert (Hup : below (Py.fmul (Py.of_int size) Py.lit_0_7) (F2R (16 * F + 15) (-4))).
  { apply fmul_below; [assumption|assumption|split; lia|].
    rewrite Vn, V7. unfold F2R. rewrite bpow_m4, plus_IZR, mult_IZR. lra. }
  assert (Hup' : below (Py.fmul (Py.of_int size) Py.lit_0_7) (IZR (F + 1))).
  { split; [apply Hup|]. destruct Hup as [_ Hup]. unfold F2R in Hup.
    rewrite bpow_m4, plus_IZR, mult_IZR in Hup. rewrite plus_IZR. lra. }
  destruct (int_below _ _ Hup') as (fs & E & Hfs).
  exists fs. split; [exact E|]. split; [lia|].
  destruct (int_truncates _ _ E) as [T _].
  specialize (T (SF2R_nonneg _ (proj1 Hup))). destruct T as [Tlo Thi].
  split.
  - assert (HF1 : F = 0 \/ 1 <= F) by lia. destruct HF1 as [->|HF1]; [lia|].
    assert (Hlow : (F2R (16 * F - 1) (-4) <= SF2R (Py.fmul (Py.of_int size) Py.lit_0_7))%R).
    { apply fmul_above; try assumption; try lia; [|apply Hup].
      rewrite Vn, V7. unfold F2R. rewrite bpow_m4, minus_IZR, mult_IZR. lra. }
    unfold F2R in Hlow. rewrite bpow_m4, minus_IZR, mult_IZR in Hlow.
    assert (IZR (F - 2) < IZR fs)%R by (rewrite minus_IZR; lra).
    apply lt_IZR in H. lia.
  - destruct Hup as [_ Hup]. unfold F2R in Hup.
    rewrite bpow_m4, plus_IZR, mult_IZR in Hup.
    assert (IZR fs < IZR (F + 1))%R by (rewrite plus_IZR; lra).
    apply lt_IZR in H. lia.
Qed.

Lemma font_size_bounds_witness :
  0 <= 180 < 2 ^ 48 /\ font_size 180 = Ok (7 * 180 / 10 - 1).
Proof.
  split; [lia|].
  destruct (font_size_bounds 180 ltac:(lia)) as (fs & E & _).
  rewrite E. vm_compute in E. symmetry. exact E.
Defined.

(** X4: without [textsize], for an icon size below [2 ^ 48], the box of
    the glyph is a square of side [font_size] that lies inside the canvas,
    at the same distance from the left and from the top, and the margin
    on the far side is the same or one pixel more. *)
Theorem fallback_box_inside_canvas (e : env) (fnt : font) (size : Z) :
  0 <= size < 2 ^ 48 ->
  has_textsize e = false ->
  exists fs x,
    font_size size = Ok fs /\
    measure e "C" fnt fs = (fs, fs) /\
    position size fs fs = (x, x) /\
    0 <= x /\ x + fs <= size /\
    0 <= (size - (x + fs)) - x <= 1.
Proof.
  intros Hs Hm. destruct (font_size_bounds size Hs) as (fs & E & H0 & _ & Hhi).
  exists fs, ((size - fs) / 2). split; [exact E|].
  split; [unfold measure; rewrite Hm; reflexivity|]. split; [reflexivity|].
  assert (Hle : fs <= size).
  { apply Z.le_trans with (1 := Hhi). apply Z.div_le_upper_bound; lia. }
  pose proof (Z.div_mod (size - fs) 2 ltac:(lia)).
  pose proof (Z.mod_pos_bound (size - fs) 2 ltac:(lia)).
  assert (0 <= (size - fs) / 2) by (apply Z.div_pos; lia).
  lia.
Qed.

Lemma fallback_box_inside_canvas_witness :
  0 <= 87 < 2 ^ 48 /\ has_textsize bare_env = false /\
  exists fs x, font_size 87 = Ok fs /\ position 87 fs fs = (x, x) /\ x + fs <= 87.
Proof.
  split; [lia|]. split; [reflexivity|].
  destruct (fallback_box_inside_canvas bare_env DefaultFont 87 ltac:(lia) eq_refl)
    as (fs & x & E & _ & P & _ & H & _).
  exists fs, x. auto.
Defined.

(** ** The drawing calls of one icon *)

Lemma scanline_colors_bytes (y0 h : Z) (l : list Z) (cs : list color) :
  (forall y, In y l -> 0 <= y - y0 < h) ->
  Forall2 (fun y c => scanline_color y0 h y = Ok c) l cs ->
  Forall is_bytes cs.
Proof.
  intros Hl F. induction F as [|y c l cs Hc _ IH]; constructor.
  - destruct (scanline_color_ok y0 h y (Hl y (or_introl eq_refl)))
      as (p & r & g & b & _ & _ & _ & Ec & Hr & Hg & Hb).
    rewrite Ec in Hc. injection Hc as <-. simpl. auto.
  - apply IH. intros z Hz. apply Hl. right. exact Hz.
Qed.

Lemma first_scanline_color (y0 h : Z) :
  1 <= h -> scanline_color y0 h y0 = Ok (255, 20, 100).
Proof.
  intros Hh. unfold scanline_color, Py.truediv. rewrite Z.sub_diag.
  destruct (Z.eqb_spec h 0) as [|_]; [lia|].
  destruct h as [|h|h]; try lia. vm_compute. reflexivity.
Qed.

(** X5: whatever the font and the measure, rendering an icon of the list
    does not raise; the image holds the rounded rectangle and then one text
    per scanline, [max(text_height, 0)] of them, all of the text "C" at the
    centred position in the resolved font, each with three channels in
    [[0, 255]], the first of them [(255, 20, 100)]. *)
Theorem render_draws_byte_colors (e : env) (name : string) (size : Z) :
  In (name, size) icon_sizes ->
  exists fs,
    font_size size = Ok fs /\
    let fnt := resolve_font e fs in
    let tw := fst (measure e "C" fnt fs) in
    let th := snd (measure e "C" fnt fs) in
    exists cs,
      render e size
      = Ok (draw_all (map (fun c => Text (position size tw th) "C" c fnt) cs)
              (base_image size)) /\
      List.length cs = Z.to_nat th /\
      Forall is_bytes cs /\
      (1 <= th -> hd (0, 0, 0) cs = (255, 20, 100)).
Proof.
  intros Hin.
  assert (Hfs : exists fs, font_size size = Ok fs).
  { unfold icon_sizes in Hin. simpl in Hin.
    repeat (destruct Hin as [Hin|Hin];
            [injection Hin as _ <-; eexists; vm_compute; reflexivity|]).
    contradiction. }
  destruct Hfs as (fs & E). exists fs. split; [exact E|].
  intros fnt tw th. rewrite (render_eq e size fs E). fold fnt tw th.
  destruct (scanlines_spec (position size tw th) "C" fnt th (base_image size))
    as (cs & Er & F).
  exists cs. split; [exact Er|]. split; [|split].
  - apply Forall2_length in F. rewrite <- F, range_length. f_equal. lia.
  - refine (scanline_colors_bytes (snd (position size tw th)) th _ cs _ F).
    intros y Hy. apply range_In in Hy. lia.
  - intros Hth.
    assert (Hr : exists l, Py.range (snd (position size tw th))
                             (snd (position size tw th) + th)
                           = snd (position size tw th) :: l).
    { unfold Py.range.
      replace (Z.to_nat (snd (position size tw th) + th - snd (position size tw th)))
        with (S (Z.to_nat (th - 1))) by lia.
      simpl. rewrite Z.add_0_r. eexists. reflexivity. }
    destruct Hr as (l & Hr). rewrite Hr in F.
    inversion F as [|y c l1 l2 Hc _]; subst. simpl.
    rewrite first_scanline_color in Hc by exact Hth. injection Hc as <-. reflexivity.
Qed.

Lemma render_draws_byte_colors_witness :
  In ("Icon-40.png"%string, 40) icon_sizes /\
  exists cs,
    render bare_env 40
    = Ok (draw_all (map (fun c => Text (6, 6) "C" c DefaultFont) cs) (base_image 40)) /\
    List.length cs = 28%nat /\
    Forall is_bytes cs /\
    hd (0, 0, 0) cs = (255, 20, 100).
Proof.
  assert (Hin : In ("Icon-40.png"%string, 40) icon_sizes)
    by (unfold icon_sizes; simpl; auto 10).
  split; [exact Hin|].
  destruct (render_draws_byte_colors bare_env "Icon-40.png" 40 Hin)
    as (fs & E & H).
  vm_compute in E. injection E as <-.
  destruct H as (cs & Er & L & B & Hd).
  exists cs. split; [exact Er|]. split; [exact L|]. split; [exact B|].
  apply Hd. vm_compute. discriminate.
Defined.

(** ** How a run ends *)

Lemma generate_icon_not_writable (e : env) (w : world) (name : string) (size fs : Z) :
  font_size size = Ok fs ->
  writable e ("icons/" ++ name)%string = false ->
  generate_icon e w (name, size) = Raise IOError.
Proof.
  intros E Hw. destruct (render_ok e size fs E) as (img & Er & _).
  unfold generate_icon, save, bind. rewrite Er. cbv beta iota. rewrite Hw.
  reflexivity.
Qed.

Lemma for_each_generate_outcome (e : env) (items : list (string * Z)) :
  Forall (fun item => exists fs, font_size (snd item) = Ok fs) items ->
  forall w,
    match for_each (generate_icon e) items w with
    | Ok w' =>
        Forall (fun item => writable e ("icons/" ++ fst item)%string = true) items /\
        dirs w' = dirs w /\
        stdout w' = stdout w ++ map notice items
    | Raise ex =>
        ex = IOError /\
        Exists (fun item => writable e ("icons/" ++ fst item)%string = false) items
    end.
Proof.
  induction 1 as [|[name size] items [fs Hfs] _ IH]; intros w.
  - simpl. rewrite app_nil_r. auto.
  - rewrite for_each_cons.
    destruct (writable e ("icons/" ++ name)%string) eqn:Hw.
    + destruct (generate_icon_ok e w name size fs Hfs Hw) as (img & _ & _ & _ & E).
      rewrite E, bind_Ok.
      match goal with |- context [for_each _ _ ?w1] => specialize (IH w1) end.
      destruct (for_each (generate_icon e) items _) as [w'|ex].
      * destruct IH as (Hall & Hd & Hs). split; [constructor; assumption|].
        split; [exact Hd|]. rewrite Hs. simpl stdout. rewrite <- app_assoc.
        reflexivity.
      * destruct IH as (Hex & Hsome). split; [exact Hex|]. right. exact Hsome.
    + rewrite (generate_icon_not_writable e w name size fs Hfs Hw). simpl.
      split; [reflexivity|]. left. exact Hw.
Qed.

Lemma icon_sizes_have_font_size :
  Forall (fun item => exists fs, font_size (snd item) = Ok fs) icon_sizes.
Proof. unfold icon_sizes. repeat constructor; eexists; vm_compute; reflexivity. Qed.

(** X7: a run ends in one of two ways.  It succeeds, and then each of the
    eight paths could be written; or it raises [IOError], and then one of
    the eight paths could not be written.  No other exception leaves the
    script: no division by zero, no overflow and no [ValueError] of [int],
    whatever the fonts and the measures of the text. *)
Theorem main_fails_only_on_write (e : env) (w : world) :
  match main e w with
  | Ok _ =>
      forall name size, In (name, size) icon_sizes ->
                        writable e ("icons/" ++ name)%string = true
  | Raise ex =>
      ex = IOError /\
      exists name size, In (name, size) icon_sizes /\
                        writable e ("icons/" ++ name)%string = false
  end.
Proof.
  unfold main.
  pose proof (for_each_generate_outcome e icon_sizes icon_sizes_have_font_size
                (makedirs "icons" w)) as H.
  destruct (for_each (generate_icon e) icon_sizes (makedirs "icons" w)) as [w'|ex]; simpl.
  - destruct H as (Hall & _). intros name size Hin.
    rewrite Forall_forall in Hall. apply (Hall (name, size) Hin).
  - destruct H as (Hex & Hsome). split; [exact Hex|].
    apply Exists_exists in Hsome. destruct Hsome as ([name size] & Hin & Hw).
    exists name, size. auto.
Qed.

(** X8: when the eight paths can be written, a run creates the directory
    [icons] if it is not there, prints one line for each icon in the order
    of the list and then the closing line, and nothing else. *)
Theorem main_prints_nine_lines (e : env) (w : world) :
  (forall name size, In (name, size) icon_sizes ->
                     writable e ("icons/" ++ name)%string = true) ->
  exists w',
    main e w = Ok w' /\
    In "icons"%string (dirs w') /\
    (In "icons"%string (dirs w) -> dirs w' = dirs w) /\
    (~ In "icons"%string (dirs w) -> dirs w' = dirs w ++ ["icons"%string]) /\
    stdout w'
    = stdout w ++
      [ "Generated Icon-40.png (40x40)"; "Generated Icon-60.png (60x60)";
        "Generated Icon-58.png (58x58)"; "Generated Icon-87.png (87x87)";
        "Generated Icon-80.png (80x80)"; "Generated Icon-120.png (120x120)";
        "Generated Icon-180.png (180x180)";
        "Generated Icon-1024.png (1024x1024)";
        "All icons generated successfully!" ]%string.
Proof.
  intros Hw.
  pose proof (for_each_generate_outcome e icon_sizes icon_sizes_have_font_size
                (makedirs "icons" w)) as H.
  unfold main.
  destruct (for_each (generate_icon e) icon_sizes (makedirs "icons" w)) as [w'|ex].
  - destruct H as (_ & Hd & Hs).
    exists (print "All icons generated successfully!" w').
    split; [reflexivity|]. simpl dirs. simpl stdout. rewrite Hd, Hs.
    unfold makedirs. simpl dirs. simpl stdout.
    destruct (in_dec string_dec "icons"%string (dirs w)) as [Hin|Hnin].
    + split; [exact Hin|]. split; [reflexivity|]. split; [contradiction|].
      rewrite <- app_assoc. reflexivity.
    + split; [apply in_or_app; right; left; reflexivity|].
      split; [contradiction|]. split; [reflexivity|].
      rewrite <- app_assoc. reflexivity.
  - exfalso. destruct H as (_ & Hsome). apply Exists_exists in Hsome.
    destruct Hsome as ([name size] & Hin & Hf).
    cbn [fst] in Hf. rewrite (Hw name size Hin) in Hf. discriminate.
Qed.

Lemma main_prints_nine_lines_witness :
  (forall name size, In (name, size) icon_sizes ->
                     writable bare_env ("icons/" ++ name)%string = true) /\
  exists w', main bare_env empty_world = Ok w' /\ List.length (stdout w') = 9%nat.
Proof.
  split; [reflexivity|].
  destruct (main_prints_nine_lines bare_env empty_world (fun _ _ _ => eq_refl))
    as (w' & E & _ & _ & _ & Hs).
  exists w'. split; [exact E|]. rewrite Hs. reflexivity.
Defined.

Example main_on_read_only_third : main read_only_third empty_world = Raise IOError.
Proof. vm_compute. reflexivity. Qed.

(** ** Operations without rounding *)

Lemma bpow_m1 : bpow (-1) = (/ 2)%R.
Proof. unfold bpow. simpl. lra. Qed.

Lemma bpow_0 : bpow 0 = 1%R.
Proof. reflexivity. Qed.

Lemma bpow_1 : bpow 1 = 2%R.
Proof. unfold bpow. simpl. lra. Qed.

Lemma fmul_exact (x y : spec_float) (N E : Z) :
  nonneg x -> nonneg y -> dyadic N E ->
  (SF2R x * SF2R y)%R = F2R N E ->
  nonneg (SFmul 53 1024 x y) /\ SF2R (SFmul 53 1024 x y) = F2R N E.
Proof.
  intros Hx Hy HD Hv.
  destruct (fmul_below x y N E Hx Hy HD ltac:(rewrite Hv; apply Rle_refl)) as [Hn Hb].
  split; [exact Hn|].
  pose proof (fmul_above x y N E Hx Hy (proj1 HD) (proj1 (proj2 HD))
                ltac:(rewrite Hv; apply Rle_refl) Hn).
  lra.
Qed.

Lemma fsub_exact (x y : spec_float) (N E : Z) :
  nonneg x -> nonneg y -> dyadic N E ->
  (SF2R x - SF2R y)%R = F2R N E ->
  nonneg (SFsub 53 1024 x y) /\ SF2R (SFsub 53 1024 x y) = F2R N E.
Proof.
  intros Hx Hy HD Hv.
  pose proof (F2R_pos N E ltac:(destruct HD; lia)) as PN.
  destruct (fsub_below x y N E Hx Hy HD ltac:(lra) ltac:(rewrite Hv; apply Rle_refl))
    as [Hn Hb].
  split; [exact Hn|].
  pose proof (fsub_above x y N E Hx Hy (proj1 HD) (proj1 (proj2 HD))
                ltac:(rewrite Hv; apply Rle_refl) Hn).
  lra.
Qed.

Lemma canonical_mantissa_lt (m : positive) (e : Z) : canonical m e -> Zpos m < 2 ^ 53.
Proof.
  unfold canonical. rewrite fexp64_eq. intros H.
  destruct (Zdigits2_bounds (Zpos m) ltac:(lia)) as [_ Dhi].
  pose proof (Zdigits2_pos (Zpos m) ltac:(lia)).
  apply Z.lt_le_trans with (1 := Dhi). apply Z.pow_le_mono_r; lia.
Qed.

Lemma double_exact (x : spec_float) :
  valid x -> nonneg x -> (SF2R x <= 1)%R ->
  nonneg (Py.fmul x (Py.of_int 2)) /\
  SF2R (Py.fmul x (Py.of_int 2)) = (2 * SF2R x)%R.
Proof.
  intros V Hn Hle. destruct x as [s|s| |[|] m e]; try contradiction.
  - split; [exact I|]. simpl. lra.
  - pose proof (valid_canonical _ _ _ V) as C.
    pose proof (canonical_mantissa_lt m e C) as Hm.
    destruct (canonical_bounds m e C) as (He & _ & _).
    assert (He0 : e <= 0).
    { pose proof (F2R_pos_bpow (Z.pos m) e ltac:(lia)) as Hb. simpl SF2R in Hle.
      simpl cond_Zopp in Hle.
      destruct (Z_le_gt_dec e 0) as [|Hgt]; [assumption|].
      assert (bpow 1 <= bpow e)%R by (apply bpow_le; lia).
      rewrite bpow_1 in H. lra. }
    destruct const_2 as [N2 V2].
    assert (Hv : (SF2R (S754_finite false m e) * SF2R (Py.of_int 2))%R
                 = F2R (Z.pos m) (e + 1)).
    { rewrite V2. simpl SF2R. simpl cond_Zopp. unfold F2R. rewrite bpow_add, bpow_1.
      ring. }
    destruct (fmul_exact (S754_finite false m e) (Py.of_int 2) (Z.pos m) (e + 1)
                Hn N2 ltac:(split; lia) Hv) as [Hn2 Hv2].
    split; [exact Hn2|]. unfold Py.fmul, Py.prec, Py.emax. rewrite Hv2, <- Hv, V2. ring.
Qed.

Lemma adjusted_exact (p : spec_float) :
  valid p -> nonneg p -> (/ 2 <= SF2R p <= 1)%R ->
  nonneg (Py.fmul (Py.fsub p Py.lit_0_5) (Py.of_int 2)) /\
  SF2R (Py.fmul (Py.fsub p Py.lit_0_5) (Py.of_int 2)) = (2 * SF2R p - 1)%R.
Proof.
  intros V Hn [Hlo Hhi]. destruct p as [s|s| |[|] m e]; try contradiction.
  - simpl in Hlo. lra.
  - pose proof (valid_canonical _ _ _ V) as C.
    destruct (canonical_bounds m e C) as (He & Hup & Hnorm).
    simpl SF2R in Hlo, Hhi. simpl cond_Zopp in Hlo, Hhi.
    assert (He53 : -53 <= e).
    { destruct (Z_le_gt_dec (-53) e) as [|Hlt]; [assumption|].
      assert (bpow (53 + e) <= bpow (-1))%R by (apply bpow_le; lia).
      rewrite bpow_m1 in H. lra. }
    set (M := Z.pos m * 2 ^ (e + 53)).
    assert (HM : F2R M (-53) = F2R (Z.pos m) e).
    { unfold M. replace (-53) with (e - (e + 53)) by lia. apply F2R_shift. lia. }
    assert (Hhalf : F2R (2 ^ 52) (-53) = (/ 2)%R).
    { rewrite <- lit_0_5_val. reflexivity. }
    assert (Hone : F2R (2 ^ 53) (-53) = 1%R).
    { rewrite <- (F2R_0 1). apply (F2R_shift 1 0 53). lia. }
    assert (M1 : 2 ^ 52 <= M <= 2 ^ 53).
    { split; apply (F2R_le_inv _ _ (-53)); rewrite HM, ?Hhalf, ?Hone; assumption. }
    assert (HM0 : M = 2 ^ 52 \/ 2 ^ 52 < M) by lia. destruct HM0 as [Heq|Hgt].
    + assert (He' : e = -53).
      { destruct (Z.eq_dec e (-53)) as [|Hne]; [assumption|].
        specialize (Hnorm ltac:(lia)).
        assert (bpow 0 <= bpow (52 + e))%R by (apply bpow_le; lia).
        rewrite bpow_0 in H.
        rewrite <- HM, Heq, Hhalf in Hnorm. lra. }
      subst e. unfold M in Heq. change (-53 + 53) with 0 in Heq.
      rewrite Z.pow_0_r, Z.mul_1_r in Heq. change (2 ^ 52) with 4503599627370496 in Heq.
      injection Heq as ->. split; [exact I|].
      change (SF2R (Py.fmul (Py.fsub (S754_finite false 4503599627370496 (-53)) Py.lit_0_5)
                      (Py.of_int 2))) with 0%R.
      change (SF2R (S754_finite false 4503599627370496 (-53))) with (SF2R Py.lit_0_5).
      rewrite lit_0_5_val. lra.
    + assert (Hd : (SF2R (S754_finite false m e) - SF2R Py.lit_0_5)%R
                   = F2R (M - 2 ^ 52) (-53)).
      { rewrite F2R_sub, HM, Hhalf, lit_0_5_val. reflexivity. }
      destruct (fsub_exact (S754_finite false m e) Py.lit_0_5 (M - 2 ^ 52) (-53)
                  I I ltac:(split; lia) Hd) as [Nd Vd].
      destruct const_2 as [N2 V2].
      assert (Hv : (SF2R (SFsub 53 1024 (S754_finite false m e) Py.lit_0_5)
                    * SF2R (Py.of_int 2))%R = F2R (M - 2 ^ 52) (-53 + 1)).
      { rewrite Vd, V2. unfold F2R. rewrite bpow_add, bpow_1. ring. }
      destruct (fmul_exact _ (Py.of_int 2) (M - 2 ^ 52) (-53 + 1) Nd N2
                  ltac:(split; lia) Hv) as [Na Va].
      split; [exact Na|]. unfold Py.fmul, Py.fsub, Py.prec, Py.emax.
      rewrite Va, <- Hv, Vd, V2, F2R_sub, HM, Hhalf. simpl SF2R. simpl cond_Zopp. lra.
Qed.

(** X9: the two parameters the branches compute from [progress] carry no
    rounding error: on the upper half [progress * 2] is exactly twice
    [progress], and on the lower half [(progress - 0.5) * 2] is exactly
    twice [progress] minus one, a number of [[0, 1]].  The multiplications
    by 150, 100, 255 and 85 and the additions that follow are the only
    operations that round. *)
Theorem branch_parameters_exact (progress : Py.float) :
  valid progress ->
  Py.fleb (Py.of_int 0) progress = true ->
  Py.fleb progress (Py.of_int 1) = true ->
  if Py.fltb progress Py.lit_0_5
  then SF2R (Py.fmul progress (Py.of_int 2)) = (2 * SF2R progress)%R /\
       (0 <= SF2R (Py.fmul progress (Py.of_int 2)) < 1)%R
  else SF2R (Py.fmul (Py.fsub progress Py.lit_0_5) (Py.of_int 2))
       = (2 * SF2R progress - 1)%R /\
       (0 <= SF2R (Py.fmul (Py.fsub progress Py.lit_0_5) (Py.of_int 2)) <= 1)%R.
Proof.
  intros V H0 H1. destruct (unit_interval progress V H0 H1) as [Hn Hle].
  pose proof (SF2R_nonneg progress Hn) as Hp.
  pose proof (fltb_half progress V Hn) as Hc.
  destruct (Py.fltb progress Py.lit_0_5).
  - destruct (double_exact progress V Hn Hle) as [_ Ev]. rewrite Ev. lra.
  - destruct (adjusted_exact progress V Hn ltac:(lra)) as [_ Ev]. rewrite Ev. lra.
Qed.

Lemma branch_parameters_exact_witness :
  valid (S754_finite false 6755399441055744 (-53)) /\
  Py.fleb (Py.of_int 0) (S754_finite false 6755399441055744 (-53)) = true /\
  Py.fleb (S754_finite false 6755399441055744 (-53)) (Py.of_int 1) = true /\
  SF2R (Py.fmul (Py.fsub (S754_finite false 6755399441055744 (-53)) Py.lit_0_5)
          (Py.of_int 2))
  = (2 * SF2R (S754_finite false 6755399441055744 (-53)) - 1)%R.
Proof.
  split; [reflexivity|]. split; [reflexivity|]. split; [reflexivity|].
  pose proof (branch_parameters_exact (S754_finite false 6755399441055744 (-53))
                eq_refl eq_refl eq_refl) as H.
  change (Py.fltb (S754_finite false 6755399441055744 (-53)) Py.lit_0_5) with false in H.
  apply H.
Defined.

(** ** Rounding is monotone *)

Lemma iter_pos_comm {A : Type} (f : A -> A) (p : positive) :
  forall x, iter_pos f p (f x) = f (iter_pos f p x).
Proof.
  induction p as [p IH|p IH|]; intros x; simpl.
  - rewrite !IH. reflexivity.
  - rewrite !IH. reflexivity.
  - reflexivity.
Qed.

Lemma iter_pos_succ {A : Type} (f : A -> A) (p : positive) :
  forall x, iter_pos f (Pos.succ p) x = f (iter_pos f p x).
Proof.
  induction p as [p IH|p IH|]; intros x; simpl.
  - rewrite !IH, !iter_pos_comm. reflexivity.
  - rewrite !iter_pos_comm. reflexivity.
  - reflexivity.
Qed.

Lemma shr_1_loc (r : shr_record) :
  0 <= shr_m r ->
  loc_of_shr_record (shr_1 r)
  = match Z.odd (shr_m r), rec_exact r with
    | false, true => loc_Exact
    | false, false => loc_Inexact Lt
    | true, true => loc_Inexact Eq
    | true, false => loc_Inexact Gt
    end.
Proof.
  destruct r as [m r s]. unfold rec_exact. simpl. intros Hm.
  destruct m as [|[p|p|]|p]; try lia; destruct r, s; reflexivity.
Qed.

Lemma shr_loc (X e n : Z) :
  0 <= X ->
  loc_of_shr_record (fst (shr (shr_record_of_loc X loc_Exact) e n))
  = loc_of_rem (X mod 2 ^ Z.max n 0) (Z.max n 0).
Proof.
  intros HX. destruct n as [|p|p]; simpl shr; simpl fst;
    try (rewrite Z.max_r by lia; rewrite Z.pow_0_r, Z.mod_1_r; reflexivity).
  rewrite Z.max_l by lia.
  destruct (Pos.eq_dec p 1) as [->|Hp].
  - change (iter_pos shr_1 1 (shr_record_of_loc X loc_Exact))
      with (shr_1 (shr_record_of_loc X loc_Exact)).
    rewrite shr_1_loc by exact HX. simpl shr_m. unfold rec_exact. simpl.
    unfold loc_of_rem. change (Z.pow_pos 2 1) with 2.
    rewrite Zodd_mod. pose proof (Z.mod_pos_bound X 2 ltac:(lia)).
    destruct (Z.eqb_spec (X mod 2) 1) as [H1|H1].
    + rewrite H1. reflexivity.
    + assert (H0 : X mod 2 = 0) by lia. rewrite H0. reflexivity.
  - destruct (Pos.succ_pred_or p) as [|Hs]; [contradiction|].
    set (q := Pos.pred p) in *. rewrite <- Hs. rewrite iter_pos_succ.
    destruct (iter_shr_1 q (shr_record_of_loc X loc_Exact) HX) as [M Ex].
    rewrite shr_record_of_loc_m in M, Ex. rewrite shr_record_of_loc_exact in Ex.
    simpl loc_exact in Ex. rewrite andb_true_l in Ex.
    assert (Hq : 0 <= shr_m (iter_pos shr_1 q (shr_record_of_loc X loc_Exact))).
    { rewrite M. apply Z.div_pos; [lia|]. apply Z.pow_pos_nonneg; lia. }
    change (shr_record_of_loc X loc_Exact)
      with {| shr_m := X; shr_r := false; shr_s := false |} in M, Ex, Hq.
    rewrite shr_1_loc by exact Hq. rewrite M, Ex.
    assert (P : 0 < 2 ^ Z.pos q) by (apply Z.pow_pos_nonneg; lia).
    assert (Epow : 2 ^ Z.pos (Pos.succ q) = 2 ^ Z.pos q * 2).
    { rewrite Pos2Z.inj_succ, Z.pow_succ_r by lia. lia. }
    unfold loc_of_rem. rewrite Epow.
    rewrite (Z.rem_mul_r X (2 ^ Z.pos q) 2) by lia.
    pose proof (Z.mod_pos_bound X (2 ^ Z.pos q) P) as Hr.
    pose proof (Z.mod_pos_bound (X / 2 ^ Z.pos q) 2 ltac:(lia)) as Hb.
    rewrite Zodd_mod.
    set (T := 2 ^ Z.pos q) in *. set (a := X mod T) in *.
    set (b := (X / T) mod 2) in *.
    assert (Hb01 : b = 0 \/ b = 1) by lia.
    destruct Hb01 as [Hb0|Hb1]; [rewrite Hb0|rewrite Hb1]; simpl Z.eqb;
      rewrite ?Z.mul_0_r, ?Z.mul_1_r, ?Z.add_0_r;
      destruct (Z.eqb_spec a 0) as [H0|H0].
    + reflexivity.
    + destruct (Z.compare_spec (2 * a) (T * 2)); try lia. reflexivity.
    + rewrite H0. simpl Z.add.
      destruct (Z.eqb_spec T 0); [lia|]. rewrite Z.mul_comm, Z.compare_refl. reflexivity.
    + destruct (Z.eqb_spec (a + T) 0); [lia|].
      destruct (Z.compare_spec (2 * (a + T)) (T * 2)); try lia. reflexivity.
Qed.

Lemma round_grid_bounds (X g : Z) :
  0 <= X -> 0 <= g ->
  X / 2 ^ g * 2 ^ g <= round_grid X g <= (X / 2 ^ g + 1) * 2 ^ g.
Proof.
  intros HX Hg. unfold round_grid.
  assert (P : 0 < 2 ^ g) by (apply Z.pow_pos_nonneg; lia).
  assert (H : X / 2 ^ g <= round_nearest_even (X / 2 ^ g) (loc_of_rem (X mod 2 ^ g) g)
              <= X / 2 ^ g + 1).
  { unfold round_nearest_even, loc_of_rem.
    destruct (X mod 2 ^ g =? 0); [lia|].
    destruct (2 * (X mod 2 ^ g) ?= 2 ^ g); try destruct (Z.even (X / 2 ^ g)); lia. }
  nia.
Qed.

(** A multiple of [2 ^ g] is left as it is. *)
Lemma round_grid_fixed (Z0 g : Z) : 0 <= g -> round_grid (Z0 * 2 ^ g) g = Z0 * 2 ^ g.
Proof.
  intros Hg. unfold round_grid.
  assert (P : 0 < 2 ^ g) by (apply Z.pow_pos_nonneg; lia).
  rewrite Z.mod_mul, Z.div_mul by lia. reflexivity.
Qed.

(** On one grid, rounding is monotone. *)
Lemma round_grid_mono (X Y g : Z) :
  0 <= X <= Y -> 0 <= g -> round_grid X g <= round_grid Y g.
Proof.
  intros [HX HXY] Hg.
  assert (P : 0 < 2 ^ g) by (apply Z.pow_pos_nonneg; lia).
  assert (Hq : X / 2 ^ g <= Y / 2 ^ g) by (apply Z.div_le_mono; lia).
  assert (Hc : X / 2 ^ g < Y / 2 ^ g \/ X / 2 ^ g = Y / 2 ^ g) by lia.
  destruct Hc as [Hlt|Heq].
  - pose proof (round_grid_bounds X g HX Hg). pose proof (round_grid_bounds Y g ltac:(lia) Hg).
    nia.
  - unfold round_grid. rewrite <- Heq. apply Z.mul_le_mono_nonneg_r; [lia|].
    pose proof (Z.div_mod X (2 ^ g) ltac:(lia)) as DX.
    pose proof (Z.div_mod Y (2 ^ g) ltac:(lia)) as DY.
    pose proof (Z.mod_pos_bound X (2 ^ g) P) as BX.
    pose proof (Z.mod_pos_bound Y (2 ^ g) P) as BY.
    assert (Hr : X mod 2 ^ g <= Y mod 2 ^ g) by nia.
    unfold round_nearest_even, loc_of_rem.
    destruct (Z.eqb_spec (X mod 2 ^ g) 0), (Z.eqb_spec (Y mod 2 ^ g) 0);
      try destruct (Z.compare_spec (2 * (X mod 2 ^ g)) (2 ^ g));
      try destruct (Z.compare_spec (2 * (Y mod 2 ^ g)) (2 ^ g));
      try destruct (Z.even (X / 2 ^ g)); lia.
Qed.

(** Scaling the number and the grid together scales the result. *)
Lemma round_grid_scale (X g j : Z) :
  0 <= X -> 0 <= g -> 0 <= j ->
  round_grid (X * 2 ^ j) (g + j) = round_grid X g * 2 ^ j.
Proof.
  intros HX Hg Hj. unfold round_grid.
  assert (P : 0 < 2 ^ g) by (apply Z.pow_pos_nonneg; lia).
  assert (Pj : 0 < 2 ^ j) by (apply Z.pow_pos_nonneg; lia).
  rewrite Z.pow_add_r by lia.
  rewrite Z.div_mul_cancel_r by lia.
  rewrite Z.mul_mod_distr_r by lia.
  assert (Hl : loc_of_rem (X mod 2 ^ g * 2 ^ j) (g + j) = loc_of_rem (X mod 2 ^ g) g).
  { unfold loc_of_rem. rewrite Z.pow_add_r by lia.
    pose proof (Z.mod_pos_bound X (2 ^ g) P) as B.
    destruct (Z.eqb_spec (X mod 2 ^ g * 2 ^ j) 0), (Z.eqb_spec (X mod 2 ^ g) 0);
      try reflexivity; try nia.
    f_equal.
    destruct (Z.compare_spec (2 * (X mod 2 ^ g * 2 ^ j)) (2 ^ g * 2 ^ j)),
      (Z.compare_spec (2 * (X mod 2 ^ g)) (2 ^ g)); try reflexivity; nia. }
  rewrite <- Z.pow_add_r, Hl, Z.pow_add_r by lia. ring.
Qed.

Lemma rne_cases (m : Z) (l : location) :
  round_nearest_even m l = m \/ round_nearest_even m l = m + 1.
Proof.
  unfold round_nearest_even. destruct l as [|[| |]]; try destruct (Z.even m); auto.
Qed.

(** After the mantissa is rounded the second shift, which makes room for a
    carry, drops nothing. *)
Lemma second_shift_exact (mx ex : Z) :
  0 <= mx ->
  let k := Z.max (fexp64 (Zdigits2 mx + ex) - ex) 0 in
  let m1 := round_nearest_even (mx / 2 ^ k) (loc_of_rem (mx mod 2 ^ k) k) in
  let k2 := Z.max (fexp64 (Zdigits2 m1 + (ex + k)) - (ex + k)) 0 in
  m1 mod 2 ^ k2 = 0.
Proof.
  intros Hmx k m1 k2.
  assert (Hk : 0 <= k) by (unfold k; lia).
  assert (P : 0 < 2 ^ k) by (apply Z.pow_pos_nonneg; lia).
  assert (Hk2 : k2 = 0 \/ 0 < k2) by (unfold k2; lia).
  destruct Hk2 as [->|Hpos]; [apply Z.mod_1_r|].
  set (m' := mx / 2 ^ k) in *.
  assert (Hm' : 0 <= m') by (apply Z.div_pos; lia).
  assert (A : fexp64 (Zdigits2 m' + (ex + k)) <= ex + k).
  { assert (Hc : k = 0 \/ 0 < k) by lia. destruct Hc as [K0|Kpos].
    - unfold m'. rewrite K0, Z.pow_0_r, Z.div_1_r, Z.add_0_r.
      clear - K0. unfold k in K0. lia.
    - assert (Ee : ex + k = fexp64 (Zdigits2 mx + ex))
        by (clear - Kpos; unfold k in Kpos |- *; lia).
      assert (Hc : m' = 0 \/ 0 < m') by lia. destruct Hc as [Hz|Hp].
      + rewrite Hz. simpl Zdigits2. rewrite Ee at 2. rewrite !fexp64_eq.
        rewrite fexp64_eq in Ee. lia.
      + unfold m'. rewrite Zdigits2_div by (fold m'; lia).
        replace (Zdigits2 mx - k + (ex + k)) with (Zdigits2 mx + ex) by lia. lia. }
  assert (Hm1 : m1 = m' + 1).
  { destruct (rne_cases m' (loc_of_rem (mx mod 2 ^ k) k)) as [H|H]; [|exact H].
    exfalso. fold m1 in H. clear - H A Hpos. unfold k2 in Hpos. rewrite H in Hpos. lia. }
  assert (Hd : Zdigits2 m' < Zdigits2 m1).
  { destruct (Z_lt_le_dec (Zdigits2 m') (Zdigits2 m1)) as [|Hle]; [assumption|].
    exfalso.
    assert (fexp64 (Zdigits2 m1 + (ex + k)) <= fexp64 (Zdigits2 m' + (ex + k)))
      by (apply fexp64_mono; lia).
    clear - H A Hpos. unfold k2 in Hpos. lia. }
  assert (Hpow : m1 = 2 ^ Zdigits2 m').
  { assert (Hlo : 2 ^ Zdigits2 m' <= m1).
    { destruct (Zdigits2_bounds m1 ltac:(lia)) as [Lo _].
      apply Z.le_trans with (2 := Lo). apply Z.pow_le_mono_r; lia. }
    assert (Hhi : m' < 2 ^ Zdigits2 m').
    { assert (Hc : m' = 0 \/ 0 < m') by lia. destruct Hc as [->|Hp].
      - simpl. lia.
      - apply Zdigits2_bounds. exact Hp. }
    lia. }
  assert (Hd1 : Zdigits2 m1 = Zdigits2 m' + 1).
  { rewrite Hpow at 1. apply Zdigits2_unique.
    - pose proof (Zdigits2_nonneg m').
      replace (Zdigits2 m' + 1 - 1) with (Zdigits2 m') by lia.
      split; [lia|]. rewrite Z.pow_add_r by lia. change (2 ^ 1) with 2.
      assert (0 < 2 ^ Zdigits2 m') by (apply Z.pow_pos_nonneg; lia). lia.
    - apply Z.pow_pos_nonneg; [lia|apply Zdigits2_nonneg]. }
  assert (Hk21 : k2 = 1).
  { clear - Hd1 A Hpos. unfold k2 in *. rewrite Hd1 in *. rewrite fexp64_eq in *. lia. }
  assert (Hdpos : 0 < Zdigits2 m').
  { pose proof (Zdigits2_nonneg m').
    destruct (Z.eq_dec (Zdigits2 m') 0) as [H0|]; [|lia]. exfalso.
    clear - H0 A Hk21 Hd1. unfold k2 in Hk21. rewrite Hd1, H0 in Hk21.
    rewrite H0 in A. rewrite fexp64_eq in *. lia. }
  rewrite Hk21, Hpow. change (2 ^ 1) with 2.
  replace (Zdigits2 m') with (Z.succ (Zdigits2 m' - 1)) by lia.
  rewrite Z.pow_succ_r by lia. rewrite Z.mul_comm. apply Z.mod_mul. lia.
Qed.

(** The value of a rounded number, when it is not an infinity: the
    mantissa rounded on the grid of the format. *)
Lemma binary_round_aux_value (mx ex : Z) :
  0 <= mx ->
  nonneg (binary_round_aux 53 1024 false mx ex loc_Exact) ->
  SF2R (binary_round_aux 53 1024 false mx ex loc_Exact)
  = F2R (round_grid mx (Z.max (fexp64 (Zdigits2 mx + ex) - ex) 0)) ex.
Proof.
  intros Hmx. pose proof (second_shift_exact mx ex Hmx) as S2. cbv zeta in S2.
  unfold binary_round_aux, shr_fexp.
  set (n1 := fexp64 (Zdigits2 mx + ex) - ex) in *.
  pose proof (shr_loc mx ex n1 Hmx) as L1.
  destruct (shr_spec (shr_record_of_loc mx loc_Exact) ex n1) as (M1 & E1 & _);
    [rewrite shr_record_of_loc_m; exact Hmx|].
  rewrite shr_record_of_loc_m in M1.
  destruct (shr (shr_record_of_loc mx loc_Exact) ex n1) as [mrs' e'].
  simpl in M1, E1, L1. rewrite M1, L1, E1.
  set (k := Z.max n1 0) in *.
  set (m1 := round_nearest_even (mx / 2 ^ k) (loc_of_rem (mx mod 2 ^ k) k)) in *.
  assert (Hk : 0 <= k) by (unfold k; lia).
  assert (P : 0 < 2 ^ k) by (apply Z.pow_pos_nonneg; lia).
  assert (Hm1 : 0 <= m1).
  { assert (0 <= mx / 2 ^ k) by (apply Z.div_pos; lia).
    destruct (rne_cases (mx / 2 ^ k) (loc_of_rem (mx mod 2 ^ k) k)) as [H1|H1];
      fold m1 in H1; lia. }
  set (n2 := fexp64 (Zdigits2 m1 + (ex + k)) - (ex + k)) in *.
  destruct (shr_spec (shr_record_of_loc m1 loc_Exact) (ex + k) n2) as (M2 & E2 & _);
    [rewrite shr_record_of_loc_m; exact Hm1|].
  rewrite shr_record_of_loc_m in M2.
  destruct (shr (shr_record_of_loc m1 loc_Exact) (ex + k) n2) as [mrs'' e''].
  simpl in M2, E2. rewrite M2, E2.
  set (k2 := Z.max n2 0) in *.
  assert (Hk2 : 0 <= k2) by (unfold k2; lia).
  assert (P2 : 0 < 2 ^ k2) by (apply Z.pow_pos_nonneg; lia).
  assert (Hdiv : m1 / 2 ^ k2 * 2 ^ k2 = m1).
  { pose proof (Z.div_mod m1 (2 ^ k2) ltac:(lia)) as D. rewrite S2 in D. lia. }
  assert (Hval : F2R (m1 / 2 ^ k2) (ex + k + k2) = F2R (round_grid mx k) ex).
  { unfold round_grid. fold m1.
    rewrite <- (F2R_shift (m1 / 2 ^ k2) (ex + k + k2) k2) by lia. rewrite Hdiv.
    replace (ex + k + k2 - k2) with (ex + k) by lia.
    rewrite <- (F2R_shift m1 (ex + k) k) by lia. f_equal. lia. }
  destruct (m1 / 2 ^ k2) as [|m|m] eqn:Hq.
  - intros _. simpl SF2R. rewrite <- Hval. unfold F2R. rewrite Rmult_0_l. reflexivity.
  - destruct (ex + k + k2 <=? 1024 - 53); simpl; [|contradiction].
    intros _. exact Hval.
  - simpl. contradiction.
Qed.

Lemma multiple_coarser (Y j g : Z) :
  0 <= g <= j -> Y mod 2 ^ j = 0 -> exists Z0, Y = Z0 * 2 ^ g.
Proof.
  intros Hg Hmod. exists (Y / 2 ^ j * 2 ^ (j - g)).
  assert (P : 0 < 2 ^ j) by (apply Z.pow_pos_nonneg; lia).
  pose proof (Z.div_mod Y (2 ^ j) ltac:(lia)) as D. rewrite Hmod in D.
  rewrite <- Z.mul_assoc, <- Z.pow_add_r by lia.
  replace (j - g + g) with j by lia. lia.
Qed.

Lemma round_grid_multiple (Y j g : Z) :
  0 <= g <= j -> Y mod 2 ^ j = 0 -> round_grid Y g = Y.
Proof.
  intros Hg Hmod. destruct (multiple_coarser Y j g Hg Hmod) as (Z0 & ->).
  apply round_grid_fixed. lia.
Qed.

(** Two numbers, each rounded on the grid of its own size. *)
Lemma round_two_grids (X Y e0 jx jy : Z) :
  0 < X <= Y -> 0 <= jx -> 0 <= jy ->
  X mod 2 ^ jx = 0 -> Y mod 2 ^ jy = 0 ->
  round_grid X (Z.max (fexp64 (Zdigits2 X + e0) - e0) jx)
  <= round_grid Y (Z.max (fexp64 (Zdigits2 Y + e0) - e0) jy).
Proof.
  intros [HX HXY] Hjx Hjy MX MY.
  set (FX := fexp64 (Zdigits2 X + e0) - e0).
  set (FY := fexp64 (Zdigits2 Y + e0) - e0).
  assert (HD : Zdigits2 X <= Zdigits2 Y) by (apply Zdigits2_mono; lia).
  assert (HF : FX <= FY).
  { unfold FX, FY. assert (fexp64 (Zdigits2 X + e0) <= fexp64 (Zdigits2 Y + e0))
      by (apply fexp64_mono; lia). lia. }
  set (gx := Z.max FX jx). set (gy := Z.max FY jy).
  assert (Hgx : 0 <= gx) by (unfold gx; lia).
  assert (Hgy : 0 <= gy) by (unfold gy; lia).
  destruct (Z_le_gt_dec FY jy) as [Hy|Hy].
  - (* [Y] is not shifted *)
    assert (Egy : gy = jy) by (unfold gy; lia).
    rewrite Egy, (round_grid_multiple Y jy jy) by (assumption || lia).
    destruct (Z_le_gt_dec FX jx) as [Hx|Hx].
    + assert (Egx : gx = jx) by (unfold gx; lia).
      rewrite Egx, (round_grid_multiple X jx jx) by (assumption || lia). exact HXY.
    + assert (Egx : gx = FX) by (unfold gx; lia).
      rewrite <- (round_grid_multiple Y jy gx) by (assumption || lia).
      apply round_grid_mono; lia.
  - assert (Egy : gy = FY) by (unfold gy; lia).
    destruct (Z.lt_trichotomy gx gy) as [Hlt|[Heq|Hgt]].
    + (* a power of two lies between the two numbers *)
      assert (HFlt : FX < FY) by (unfold gx in Hlt; lia).
      assert (HDlt : Zdigits2 X < Zdigits2 Y).
      { destruct (Z_lt_le_dec (Zdigits2 X) (Zdigits2 Y)) as [|Hle]; [assumption|].
        exfalso. assert (fexp64 (Zdigits2 Y + e0) <= fexp64 (Zdigits2 X + e0))
          by (apply fexp64_mono; lia). unfold FX, FY in HFlt. lia. }
      assert (EFY : FY = Zdigits2 Y - 53).
      { unfold FX, FY in *. rewrite fexp64_eq in *. lia. }
      set (Zp := 2 ^ (Zdigits2 Y - 1)).
      destruct (Zdigits2_bounds X HX) as [_ XH].
      destruct (Zdigits2_bounds Y ltac:(lia)) as [YL _].
      pose proof (Zdigits2_pos X HX) as DXpos.
      assert (HXZ : X <= Zp).
      { unfold Zp. assert (2 ^ Zdigits2 X <= 2 ^ (Zdigits2 Y - 1))
          by (apply Z.pow_le_mono_r; lia). lia. }
      assert (Hmul : forall g, 0 <= g <= gy -> round_grid Zp g = Zp).
      { intros g Hg. unfold Zp.
        replace (Zdigits2 Y - 1) with ((Zdigits2 Y - 1 - g) + g) by lia.
        rewrite Z.pow_add_r by lia. apply round_grid_fixed. lia. }
      apply Z.le_trans with Zp.
      * rewrite <- (Hmul gx) by lia. apply round_grid_mono; lia.
      * rewrite <- (Hmul gy) at 1 by lia. apply round_grid_mono; [|lia].
        split; [|exact YL]. unfold Zp. apply Z.pow_nonneg. lia.
    + rewrite Heq. apply round_grid_mono; lia.
    + assert (Egx : gx = jx) by (unfold gx in *; lia).
      rewrite Egx at 1. rewrite (round_grid_multiple X jx jx) by (assumption || lia).
      rewrite <- (round_grid_multiple X jx gy) by (assumption || lia).
      apply round_grid_mono; lia.
Qed.

Lemma Zdigits2_shift (m j : Z) : 0 < m -> 0 <= j -> Zdigits2 (m * 2 ^ j) = Zdigits2 m + j.
Proof.
  intros Hm Hj. destruct (Zdigits2_bounds m Hm) as [Lo Hi].
  pose proof (Zdigits2_pos m Hm).
  assert (P : 0 < 2 ^ j) by (apply Z.pow_pos_nonneg; lia).
  apply Zdigits2_unique; [|nia]. split.
  - replace (Zdigits2 m + j - 1) with ((Zdigits2 m - 1) + j) by lia.
    rewrite Z.pow_add_r by lia. nia.
  - rewrite Z.pow_add_r by lia. nia.
Qed.

Lemma round_grid_nonneg (X g : Z) : 0 <= X -> 0 <= g -> 0 <= round_grid X g.
Proof.
  intros HX Hg. pose proof (round_grid_bounds X g HX Hg).
  assert (0 < 2 ^ g) by (apply Z.pow_pos_nonneg; lia).
  assert (0 <= X / 2 ^ g) by (apply Z.div_pos; lia). nia.
Qed.

(** Rounding is monotone: of two exact values the smaller one is rounded
    to the smaller number. *)
Lemma binary_round_aux_mono (mx ex my ey : Z) :
  0 <= mx -> 0 <= my ->
  (F2R mx ex <= F2R my ey)%R ->
  nonneg (binary_round_aux 53 1024 false mx ex loc_Exact) ->
  nonneg (binary_round_aux 53 1024 false my ey loc_Exact) ->
  (SF2R (binary_round_aux 53 1024 false mx ex loc_Exact)
   <= SF2R (binary_round_aux 53 1024 false my ey loc_Exact))%R.
Proof.
  intros Hmx Hmy Hle Nx Ny.
  rewrite (binary_round_aux_value mx ex Hmx Nx), (binary_round_aux_value my ey Hmy Ny).
  set (kx := Z.max (fexp64 (Zdigits2 mx + ex) - ex) 0).
  set (ky := Z.max (fexp64 (Zdigits2 my + ey) - ey) 0).
  assert (Hkx : 0 <= kx) by (unfold kx; lia).
  assert (Hky : 0 <= ky) by (unfold ky; lia).
  assert (Hc : mx = 0 \/ 0 < mx) by lia. destruct Hc as [->|Hpx].
  - assert (E0 : round_grid 0 kx = 0).
    { unfold round_grid. rewrite Z.div_0_l, Z.mod_0_l
        by (apply Z.pow_nonzero; lia). reflexivity. }
    rewrite E0. unfold F2R at 1. rewrite Rmult_0_l.
    unfold F2R. apply Rmult_le_pos; [|apply Rlt_le, bpow_pos].
    apply IZR_le. apply round_grid_nonneg; lia.
  - assert (Hpy : 0 < my).
    { destruct (Z_lt_le_dec 0 my) as [|Hz]; [assumption|].
      assert (my = 0) by lia. subst my.
      pose proof (F2R_pos mx ex Hpx). unfold F2R in Hle at 2.
      rewrite Rmult_0_l in Hle. lra. }
    set (e0 := Z.min ex ey). set (jx := ex - e0). set (jy := ey - e0).
    assert (Hjx : 0 <= jx) by (unfold jx, e0; lia).
    assert (Hjy : 0 <= jy) by (unfold jy, e0; lia).
    assert (Px : 0 < 2 ^ jx) by (apply Z.pow_pos_nonneg; lia).
    assert (Py : 0 < 2 ^ jy) by (apply Z.pow_pos_nonneg; lia).
    assert (VX : F2R (mx * 2 ^ jx) e0 = F2R mx ex).
    { replace e0 with (ex - jx) by (unfold jx; lia). apply F2R_shift. exact Hjx. }
    assert (VY : F2R (my * 2 ^ jy) e0 = F2R my ey).
    { replace e0 with (ey - jy) by (unfold jy; lia). apply F2R_shift. exact Hjy. }
    assert (HXY : mx * 2 ^ jx <= my * 2 ^ jy).
    { apply (F2R_le_inv _ _ e0). rewrite VX, VY. exact Hle. }
    assert (RX : F2R (round_grid mx kx) ex = F2R (round_grid (mx * 2 ^ jx) (kx + jx)) e0).
    { rewrite round_grid_scale by lia.
      replace e0 with (ex - jx) by (unfold jx; lia). symmetry. apply F2R_shift. exact Hjx. }
    assert (RY : F2R (round_grid my ky) ey = F2R (round_grid (my * 2 ^ jy) (ky + jy)) e0).
    { rewrite round_grid_scale by lia.
      replace e0 with (ey - jy) by (unfold jy; lia). symmetry. apply F2R_shift. exact Hjy. }
    rewrite RX, RY. apply F2R_le.
    assert (GX : kx + jx = Z.max (fexp64 (Zdigits2 (mx * 2 ^ jx) + e0) - e0) jx).
    { rewrite Zdigits2_shift by lia. unfold kx.
      replace (Zdigits2 mx + jx + e0) with (Zdigits2 mx + ex) by (unfold jx; lia).
      unfold jx. lia. }
    assert (GY : ky + jy = Z.max (fexp64 (Zdigits2 (my * 2 ^ jy) + e0) - e0) jy).
    { rewrite Zdigits2_shift by lia. unfold ky.
      replace (Zdigits2 my + jy + e0) with (Zdigits2 my + ey) by (unfold jy; lia).
      unfold jy. lia. }
    rewrite GX, GY. apply round_two_grids; try assumption.
    + split; [nia|exact HXY].
    + apply Z.mod_mul. lia.
    + apply Z.mod_mul. lia.
Qed.

Lemma binary_round_mono (mx : positive) (ex : Z) (my : positive) (ey : Z) :
  (F2R (Zpos mx) ex <= F2R (Zpos my) ey)%R ->
  nonneg (binary_round 53 1024 false mx ex) ->
  nonneg (binary_round 53 1024 false my ey) ->
  (SF2R (binary_round 53 1024 false mx ex)
   <= SF2R (binary_round 53 1024 false my ey))%R.
Proof.
  unfold binary_round. intros Hle.
  destruct (shl_align_spec mx ex (fexp64 (Z.pos (digits2_pos mx) + ex))) as [Vx _].
  destruct (shl_align_spec my ey (fexp64 (Z.pos (digits2_pos my) + ey))) as [Vy _].
  destruct (shl_align mx ex (fexp64 (Z.pos (digits2_pos mx) + ex))) as [ax fx].
  destruct (shl_align my ey (fexp64 (Z.pos (digits2_pos my) + ey))) as [ay fy].
  simpl in Vx, Vy. intros Nx Ny.
  apply binary_round_aux_mono; try assumption; try lia.
  rewrite Vx, Vy. exact Hle.
Qed.

Lemma constant_nonneg (c : spec_float) : constant c -> nonneg c.
Proof. destruct c as [s|s| |[|] m e]; simpl; auto. Qed.

(** The product with a constant grows with the other factor. *)
Lemma fmul_mono (x1 x2 c : spec_float) :
  nonneg x1 -> nonneg x2 -> nonneg c ->
  (SF2R x1 <= SF2R x2)%R ->
  nonneg (Py.fmul x1 c) -> nonneg (Py.fmul x2 c) ->
  (SF2R (Py.fmul x1 c) <= SF2R (Py.fmul x2 c))%R.
Proof.
  unfold Py.fmul, Py.prec, Py.emax. intros H1 H2 Hc Hle N1 N2.
  pose proof (SF2R_nonneg _ N2) as P2.
  destruct c as [sc|sc| |[|] mc ec]; try contradiction.
  - destruct x1 as [s1|s1| |[|] m1 e1]; try contradiction;
      destruct x2 as [s2|s2| |[|] m2 e2]; try contradiction; simpl; lra.
  - destruct x1 as [s1|s1| |[|] m1 e1]; try contradiction;
      destruct x2 as [s2|s2| |[|] m2 e2]; try contradiction.
    + simpl. lra.
    + exact P2.
    + exfalso. simpl in Hle. pose proof (F2R_pos (Z.pos m1) e1 ltac:(lia)). lra.
    + unfold SFmul in *. simpl xorb in *.
      apply binary_round_aux_mono; try assumption; try lia.
      rewrite !Pos2Z.inj_mul, !F2R_mul. simpl in Hle.
      pose proof (F2R_pos (Z.pos mc) ec ltac:(lia)).
      apply Rmult_le_compat_r; lra.
Qed.

(** The sum with a constant grows with the other term. *)
Lemma fadd_mono (c x1 x2 : spec_float) :
  constant c -> nonneg x1 -> nonneg x2 ->
  (SF2R x1 <= SF2R x2)%R ->
  nonneg (Py.fadd c x1) -> nonneg (Py.fadd c x2) ->
  (SF2R (Py.fadd c x1) <= SF2R (Py.fadd c x2))%R.
Proof.
  unfold Py.fadd, Py.prec, Py.emax. intros Hc H1 H2 Hle N1 N2.
  pose proof (SF2R_nonneg _ N2) as P2.
  destruct c as [sc|sc| |[|] mc ec]; try contradiction.
  - destruct x1 as [s1|s1| |[|] m1 e1]; try contradiction;
      destruct x2 as [s2|s2| |[|] m2 e2]; try contradiction.
    + destruct sc, s1, s2; simpl; lra.
    + destruct sc, s1; exact P2.
    + exfalso. simpl in Hle. pose proof (F2R_pos (Z.pos m1) e1 ltac:(lia)). lra.
    + exact Hle.
  - destruct Hc as [HN [HE _]].
    destruct x1 as [s1|s1| |[|] m1 e1]; try contradiction;
      destruct x2 as [s2|s2| |[|] m2 e2]; try contradiction.
    + simpl. lra.
    + change (SF2R (SFadd 53 1024 (S754_finite false mc ec) (S754_zero s1)))
        with (F2R (Z.pos mc) ec).
      apply fadd_above; try assumption; try exact I.
      simpl. pose proof (F2R_pos (Z.pos m2) e2 ltac:(lia)). lra.
    + exfalso. simpl in Hle. pose proof (F2R_pos (Z.pos m1) e1 ltac:(lia)). lra.
    + unfold SFadd in *.
      destruct (shl_align_spec mc ec (Z.min ec e1)) as [Vc1 Ec1].
      destruct (shl_align_spec m1 e1 (Z.min ec e1)) as [V1 E1].
      destruct (shl_align_spec mc ec (Z.min ec e2)) as [Vc2 Ec2].
      destruct (shl_align_spec m2 e2 (Z.min ec e2)) as [V2 E2].
      rewrite Ec1 in Vc1 by lia. rewrite E1 in V1 by lia.
      rewrite Ec2 in Vc2 by lia. rewrite E2 in V2 by lia.
      simpl cond_Zopp in *. simpl binary_normalize in *.
      apply binary_round_mono; try assumption.
      rewrite !Pos2Z.inj_add, !F2R_add, Vc1, V1, Vc2, V2. simpl in Hle. lra.
Qed.

(** What is left of a constant shrinks as more is taken from it. *)
Lemma fsub_anti (c x1 x2 : spec_float) :
  constant c -> nonneg x1 -> nonneg x2 ->
  (SF2R x1 <= SF2R x2)%R -> (SF2R x2 <= SF2R c)%R ->
  nonneg (Py.fsub c x1) -> nonneg (Py.fsub c x2) ->
  (SF2R (Py.fsub c x2) <= SF2R (Py.fsub c x1))%R.
Proof.
  unfold Py.fsub, Py.prec, Py.emax. intros Hc H1 H2 Hle Hxc N1 N2.
  pose proof (SF2R_nonneg _ N1) as P1.
  destruct c as [sc|sc| |[|] mc ec]; try contradiction.
  - destruct x2 as [s2|s2| |[|] m2 e2]; try contradiction.
    destruct x1 as [s1|s1| |[|] m1 e1]; try contradiction.
    destruct sc, s1, s2; simpl; lra.
  - destruct x1 as [s1|s1| |[|] m1 e1]; try contradiction;
      destruct x2 as [s2|s2| |[|] m2 e2]; try contradiction.
    + simpl. lra.
    + change (SF2R (SFsub 53 1024 (S754_finite false mc ec) (S754_zero s1)))
        with (F2R (Z.pos mc) ec).
      apply fsub_below; try assumption; try exact I.
      simpl. pose proof (F2R_pos (Z.pos m2) e2 ltac:(lia)). lra.
    + exfalso. simpl in Hle. pose proof (F2R_pos (Z.pos m1) e1 ltac:(lia)). lra.
    + unfold SFsub in *.
      destruct (shl_align_spec mc ec (Z.min ec e1)) as [Vc1 Ec1].
      destruct (shl_align_spec m1 e1 (Z.min ec e1)) as [V1 E1].
      destruct (shl_align_spec mc ec (Z.min ec e2)) as [Vc2 Ec2].
      destruct (shl_align_spec m2 e2 (Z.min ec e2)) as [V2 E2].
      rewrite Ec1 in Vc1 by lia. rewrite E1 in V1 by lia.
      rewrite Ec2 in Vc2 by lia. rewrite E2 in V2 by lia.
      simpl cond_Zopp in *. simpl in Hle, Hxc.
      set (ac1 := fst (shl_align mc ec (Z.min ec e1))) in *.
      set (a1 := fst (shl_align m1 e1 (Z.min ec e1))) in *.
      set (ac2 := fst (shl_align mc ec (Z.min ec e2))) in *.
      set (a2 := fst (shl_align m2 e2 (Z.min ec e2))) in *.
      assert (G2 : Z.pos a2 <= Z.pos ac2).
      { apply (F2R_le_inv _ _ (Z.min ec e2)). rewrite Vc2, V2. exact Hxc. }
      assert (G1 : Z.pos a1 <= Z.pos ac1).
      { apply (F2R_le_inv _ _ (Z.min ec e1)). rewrite Vc1, V1. lra. }
      assert (W1 : F2R (Z.pos ac1 - Z.pos a1) (Z.min ec e1)
                   = (F2R (Z.pos mc) ec - F2R (Z.pos m1) e1)%R)
        by (rewrite F2R_sub, Vc1, V1; reflexivity).
      assert (W2 : F2R (Z.pos ac2 - Z.pos a2) (Z.min ec e2)
                   = (F2R (Z.pos mc) ec - F2R (Z.pos m2) e2)%R)
        by (rewrite F2R_sub, Vc2, V2; reflexivity).
      destruct (Z.pos ac2 - Z.pos a2) as [|d2|d2] eqn:Hd2; try lia.
      * simpl binary_normalize at 1. simpl SF2R at 1. exact P1.
      * destruct (Z.pos ac1 - Z.pos a1) as [|d1|d1] eqn:Hd1; try lia.
        -- exfalso. unfold F2R in W1 at 1. rewrite Rmult_0_l in W1.
           pose proof (F2R_pos (Z.pos d2) (Z.min ec e2) ltac:(lia)). lra.
        -- simpl binary_normalize in *.
           apply binary_round_mono; try assumption.
           rewrite W1, W2. lra.
Qed.

(** Truncation keeps the order. *)
Lemma int_mono (x1 x2 : spec_float) (z1 z2 : Z) :
  nonneg x1 -> (SF2R x1 <= SF2R x2)%R ->
  Py.int x1 = Ok z1 -> Py.int x2 = Ok z2 -> z1 <= z2.
Proof.
  intros N1 Hle E1 E2.
  pose proof (SF2R_nonneg _ N1) as P1.
  destruct (int_truncates _ _ E1) as [T1 _]. destruct (int_truncates _ _ E2) as [T2 _].
  specialize (T1 P1). specialize (T2 ltac:(lra)).
  assert (H : (IZR z1 < IZR (z2 + 1))%R) by (rewrite plus_IZR; lra).
  apply lt_IZR in H. lia.
Qed.

(** [<=] of Python on numbers that are not negative is [<=] of their values. *)
Lemma fleb_val (x y : spec_float) :
  valid x -> valid y -> nonneg x -> nonneg y ->
  Py.fleb x y = true -> (SF2R x <= SF2R y)%R.
Proof.
  intros Vx Vy Nx Ny H. pose proof (SF2R_nonneg _ Ny) as Py.
  destruct x as [sx|sx| |[|] mx ex]; try contradiction; [exact Py|].
  destruct y as [sy|sy| |[|] my ey]; try contradiction; [discriminate|].
  pose proof (SFcompare_canonical mx ex my ey (valid_canonical _ _ _ Vx)
                (valid_canonical _ _ _ Vy)) as C.
  unfold Py.fleb, SFleb in H. simpl SF2R.
  destruct (SFcompare (S754_finite false mx ex) (S754_finite false my ey))
    as [[| |]|]; try discriminate; lra.
Qed.

Ltac constant_tac n :=
  let v := eval vm_compute in (Py.of_int n) in
  change (Py.of_int n) with v; split; lia.

Lemma constant_20 : constant (Py.of_int 20).
Proof. constant_tac 20. Qed.

Lemma constant_100 : constant (Py.of_int 100).
Proof. constant_tac 100. Qed.

Lemma constant_170 : constant (Py.of_int 170).
Proof. constant_tac 170. Qed.

Lemma constant_255 : constant (Py.of_int 255).
Proof. constant_tac 255. Qed.

(** The numbers computed on lines 49 to 52 stay in range. *)
Lemma upper_facts (p : spec_float) :
  valid p -> nonneg p -> (SF2R p <= / 2)%R ->
  let t := Py.fmul p (Py.of_int 2) in
  nonneg t /\ SF2R t = (2 * SF2R p)%R /\
  below (Py.fmul t (Py.of_int 150)) 150 /\
  below (Py.fmul t (Py.of_int 100)) 100 /\
  nonneg (Py.fadd (Py.of_int 20) (Py.fmul t (Py.of_int 150))) /\
  nonneg (Py.fsub (Py.of_int 100) (Py.fmul t (Py.of_int 100))).
Proof.
  intros V Hn Hle t.
  destruct (double_exact p V Hn ltac:(lra)) as [Nt Vt]. fold t in Nt, Vt.
  pose proof (SF2R_nonneg _ Hn) as P0.
  assert (Ht : below t 1) by (split; [exact Nt|lra]).
  pose proof (scale_below _ 150 Ht ltac:(lia) const_150) as H150.
  pose proof (scale_below _ 100 Ht ltac:(lia) const_100) as H100.
  destruct (below_nonneg _ _ H150) as [A0 A1].
  destruct (below_nonneg _ _ H100) as [B0 B1].
  destruct const_20 as [N20 V20]. destruct const_100 as [N100 V100].
  repeat split; try assumption; try apply H150; try apply H100.
  - refine (proj1 (fadd_below _ _ 170 0 N20 (proj1 H150) (dyadic_int 170 ltac:(lia)) _)).
    rewrite V20, F2R_0. lra.
  - refine (proj1 (fsub_below _ _ 100 0 N100 (proj1 H100) (dyadic_int 100 ltac:(lia)) _ _)).
    + rewrite V100. lra.
    + rewrite V100, F2R_0. lra.
Qed.

(** The numbers computed on lines 54 to 57 stay in range. *)
Lemma lower_facts (p : spec_float) :
  valid p -> nonneg p -> (/ 2 <= SF2R p <= 1)%R ->
  let a := Py.fmul (Py.fsub p Py.lit_0_5) (Py.of_int 2) in
  nonneg a /\ SF2R a = (2 * SF2R p - 1)%R /\
  below (Py.fmul a (Py.of_int 255)) 255 /\
  below (Py.fmul a (Py.of_int 85)) 85 /\
  below (Py.fmul a (Py.of_int 150)) 150 /\
  nonneg (Py.fsub (Py.of_int 255) (Py.fmul a (Py.of_int 255))) /\
  nonneg (Py.fadd (Py.of_int 170) (Py.fmul a (Py.of_int 85))).
Proof.
  intros V Hn Hle a.
  destruct (adjusted_exact p V Hn Hle) as [Na Va]. fold a in Na, Va.
  assert (Ha : below a 1) by (split; [exact Na|lra]).
  pose proof (scale_below _ 255 Ha ltac:(lia) const_255) as H255.
  pose proof (scale_below _ 85 Ha ltac:(lia) const_85) as H85.
  pose proof (scale_below _ 150 Ha ltac:(lia) const_150) as H150.
  destruct (below_nonneg _ _ H255) as [A0 A1].
  destruct (below_nonneg _ _ H85) as [B0 B1].
  destruct const_170 as [N170 V170]. destruct const_255 as [N255 V255].
  repeat split; try assumption; try apply H255; try apply H85; try apply H150.
  - refine (proj1 (fsub_below _ _ 255 0 N255 (proj1 H255) (dyadic_int 255 ltac:(lia)) _ _)).
    + rewrite V255. lra.
    + rewrite V255, F2R_0. lra.
  - refine (proj1 (fadd_below _ _ 255 0 N170 (proj1 H85) (dyadic_int 255 ltac:(lia)) _)).
    rewrite V170, F2R_0. lra.
Qed.

(** X10: the colour moves one way along the glyph.  For two values
    [0 <= p1 <= p2 <= 1] of [progress], the colours of both are defined,
    red does not grow and green does not shrink from [p1] to [p2]; blue
    does not grow while both are on the upper half, [p2 < 0.5], and does
    not shrink once both are on the lower half, [0.5 <= p1]. *)
Theorem gradient_monotone (p1 p2 : Py.float) :
  valid p1 -> valid p2 ->
  Py.fleb (Py.of_int 0) p1 = true ->
  Py.fleb p1 p2 = true ->
  Py.fleb p2 (Py.of_int 1) = true ->
  exists r1 g1 b1 r2 g2 b2,
    gradient p1 = Ok (r1, g1, b1) /\ gradient p2 = Ok (r2, g2, b2) /\
    r2 <= r1 /\ g1 <= g2 /\
    (Py.fltb p2 Py.lit_0_5 = true -> b2 <= b1) /\
    (Py.fltb p1 Py.lit_0_5 = false -> b1 <= b2).
Proof.
  intros V1 V2 H0 H12 H21.
  assert (Hn : nonneg p1 /\ nonneg p2).
  { destruct p1 as [s1|[|]| |[|] m1 e1]; try discriminate;
      destruct p2 as [s|[|]| |[|] m e]; try discriminate; split; exact I. }
  destruct Hn as [Hn1 Hn2].
  destruct (unit_interval p2 V2 (fleb_zero p2 Hn2) H21) as [_ Hle2].
  pose proof (fleb_val p1 p2 V1 V2 Hn1 Hn2 H12) as Hle.
  pose proof (SF2R_nonneg _ Hn1) as P1.
  pose proof (fltb_half p1 V1 Hn1) as C1. pose proof (fltb_half p2 V2 Hn2) as C2.
  destruct const_150 as [N150 _]. destruct const_100 as [N100 V100].
  destruct const_255 as [N255 V255]. destruct const_85 as [N85 _].
  destruct (Py.fltb p1 Py.lit_0_5) eqn:L1; destruct (Py.fltb p2 Py.lit_0_5) eqn:L2.
  - (* both on the upper half *)
    destruct (gradient_top p1 Hn1 ltac:(lra) L1) as (g1 & b1 & Eg1 & Eb1 & E1 & _).
    destruct (gradient_top p2 Hn2 ltac:(lra) L2) as (g2 & b2 & Eg2 & Eb2 & E2 & _).
    destruct (upper_facts p1 V1 Hn1 ltac:(lra)) as (Nt1 & Vt1 & G1 & B1 & NG1 & NB1).
    destruct (upper_facts p2 V2 Hn2 ltac:(lra)) as (Nt2 & Vt2 & G2 & B2 & NG2 & NB2).
    exists 255, g1, b1, 255, g2, b2.
    split; [exact E1|]. split; [exact E2|]. split; [lia|].
    assert (Ht : (SF2R (Py.fmul p1 (Py.of_int 2)) <= SF2R (Py.fmul p2 (Py.of_int 2)))%R)
      by (rewrite Vt1, Vt2; lra).
    split; [|split; [intros _|discriminate]].
    + refine (int_mono _ _ g1 g2 NG1 _ Eg1 Eg2).
      apply fadd_mono; try assumption; [exact constant_20|apply G1|apply G2|].
      apply fmul_mono; try assumption; [apply G1|apply G2].
    + refine (int_mono _ _ b2 b1 NB2 _ Eb2 Eb1).
      apply fsub_anti; try assumption; [exact constant_100|apply B1|apply B2| |].
      * apply fmul_mono; try assumption; [apply B1|apply B2].
      * rewrite V100. apply B2.
  - (* the two halves *)
    destruct (gradient_ranges_by_half p1 V1 H0) as (r1 & g1 & b1 & E1 & R1).
    { apply (compare_one p1 V1 Hn1). lra. }
    destruct (gradient_ranges_by_half p2 V2 (fleb_zero p2 Hn2) H21)
      as (r2 & g2 & b2 & E2 & R2).
    rewrite L1 in R1. rewrite L2 in R2.
    exists r1, g1, b1, r2, g2, b2.
    split; [exact E1|]. split; [exact E2|]. split; [lia|]. split; [lia|].
    split; discriminate.
  - exfalso. lra.
  - (* both on the lower half *)
    destruct (gradient_bottom p1 Hn1 ltac:(lra) L1)
      as (r1 & g1 & b1 & Er1 & Eg1 & Eb1 & E1 & _).
    destruct (gradient_bottom p2 Hn2 ltac:(lra) L2)
      as (r2 & g2 & b2 & Er2 & Eg2 & Eb2 & E2 & _).
    destruct (lower_facts p1 V1 Hn1 ltac:(lra))
      as (Na1 & Va1 & R1 & G1 & B1 & NR1 & NG1).
    destruct (lower_facts p2 V2 Hn2 ltac:(lra))
      as (Na2 & Va2 & R2 & G2 & B2 & NR2 & NG2).
    exists r1, g1, b1, r2, g2, b2.
    split; [exact E1|]. split; [exact E2|].
    assert (Ha : (SF2R (Py.fmul (Py.fsub p1 Py.lit_0_5) (Py.of_int 2))
                  <= SF2R (Py.fmul (Py.fsub p2 Py.lit_0_5) (Py.of_int 2)))%R)
      by (rewrite Va1, Va2; lra).
    split; [|split; [|split; [discriminate|intros _]]].
    + refine (int_mono _ _ r2 r1 NR2 _ Er2 Er1).
      apply fsub_anti; try assumption; [exact constant_255|apply R1|apply R2| |].
      * apply fmul_mono; try assumption; [apply R1|apply R2].
      * rewrite V255. apply R2.
    + refine (int_mono _ _ g1 g2 NG1 _ Eg1 Eg2).
      apply fadd_mono; try assumption; [exact constant_170|apply G1|apply G2|].
      apply fmul_mono; try assumption; [apply G1|apply G2].
    + refine (int_mono _ _ b1 b2 (proj1 B1) _ Eb1 Eb2).
      apply fmul_mono; try assumption; [apply B1|apply B2].
Qed.

Lemma gradient_monotone_witness :
  valid Py.lit_0_5 /\ valid (Py.of_int 1) /\
  Py.fleb (Py.of_int 0) Py.lit_0_5 = true /\
  Py.fleb Py.lit_0_5 (Py.of_int 1) = true /\
  Py.fleb (Py.of_int 1) (Py.of_int 1) = true /\
  exists r1 g1 b1 r2 g2 b2,
    gradient Py.lit_0_5 = Ok (r1, g1, b1) /\
    gradient (Py.of_int 1) = Ok (r2, g2, b2) /\
    r2 <= r1 /\ g1 <= g2 /\ b1 <= b2.
Proof.
  repeat (split; [reflexivity|]).
  destruct (gradient_monotone Py.lit_0_5 (Py.of_int 1)
              eq_refl eq_refl eq_refl eq_refl eq_refl)
    as (r1 & g1 & b1 & r2 & g2 & b2 & E1 & E2 & R & G & _ & B).
  exists r1, g1, b1, r2, g2, b2. repeat (split; [assumption|]).
  apply B. reflexivity.
Defined.

(** ** The boundary between the two halves *)

Example below_half_parsed : Prim2SF 0x1.fffffffffffffp-2%float = below_half.
Proof. vm_compute. reflexivity. Qed.

Example near_half_parsed : Py.truediv 255 512 = Ok near_half.
Proof. vm_compute. reflexivity. Qed.

(** No binary64 number lies between [below_half] and one half. *)
Lemma below_half_val (m : positive) (e : Z) :
  canonical m e -> (F2R (Zpos m) e < / 2)%R ->
  (F2R (Zpos m) e <= SF2R below_half)%R.
Proof.
  intros C Hlt. destruct (canonical_bounds m e C) as (He & _ & Hlo).
  pose proof (canonical_mantissa_lt m e C) as Hm.
  assert (He54 : e <= -54).
  { destruct (Z_le_gt_dec e (-54)) as [|Hgt]; [assumption|]. exfalso.
    specialize (Hlo ltac:(lia)).
    assert (Hb : (bpow (52 + e) < bpow (-1))%R) by (rewrite bpow_m1; lra).
    apply bpow_lt_inv in Hb. lia. }
  simpl SF2R. simpl cond_Zopp.
  apply Rle_trans with (F2R 9007199254740991 e).
  - apply F2R_le. lia.
  - unfold F2R. apply Rmult_le_compat_l; [apply IZR_le; lia|]. apply bpow_le. exact He54.
Qed.

Lemma below_half_greatest (q : Py.float) :
  valid q -> Py.fltb q Py.lit_0_5 = true -> Py.fleb q below_half = true.
Proof.
  intros V L. destruct q as [s|[|]| |[|] m e]; try discriminate; try reflexivity.
  pose proof (fltb_half _ V I) as H. rewrite L in H. simpl SF2R in H.
  pose proof (below_half_val m e (valid_canonical _ _ _ V) H) as Hle.
  pose proof (SFcompare_canonical m e 9007199254740991 (-54)
                (valid_canonical _ _ _ V) eq_refl) as C.
  unfold Py.fleb, SFleb, below_half in *. simpl SF2R in Hle.
  destruct (SFcompare (S754_finite false m e) (S754_finite false 9007199254740991 (-54)))
    as [[| |]|]; try reflexivity; try contradiction. lra.
Qed.

(** C9 as stated does not hold of the colours the code returns: there is
    no number below one half from which on the upper branch returns the
    colour of [progress = 0.5]. *)
Lemma gradient_limit_differs_at_half :
  ~ (exists p0, valid p0 /\ Py.fltb p0 Py.lit_0_5 = true /\
       forall p, valid p -> Py.fleb p0 p = true -> Py.fltb p Py.lit_0_5 = true ->
                 gradient p = gradient Py.lit_0_5).
Proof.
  intros (p0 & V & L & H).
  specialize (H below_half eq_refl (below_half_greatest p0 V L) eq_refl).
  vm_compute in H. discriminate H.
Qed.

(** C9, amended: at [progress = 0.5] the comparison [progress < 0.5] is
    false, the adjusted progress is zero and the colour is exactly
    [(255, 170, 0)].  The upper branch never returns that colour: for every
    [0 <= progress < 0.5] it returns [(255, g, b)] with [g <= 169], and for
    every [255/512 <= progress < 0.5] it returns exactly [(255, 169, 0)].
    The colour steps by one in green at the boundary. *)
Theorem gradient_steps_at_half (progress : Py.float) :
  valid progress ->
  Py.fleb (Py.of_int 0) progress = true ->
  Py.fltb progress Py.lit_0_5 = true ->
  Py.fltb Py.lit_0_5 Py.lit_0_5 = false /\
  Py.fmul (Py.fsub Py.lit_0_5 Py.lit_0_5) (Py.of_int 2) = S754_zero false /\
  gradient_channels Py.lit_0_5 = lower_channels Py.lit_0_5 /\
  gradient Py.lit_0_5 = Ok (255, 170, 0) /\
  gradient_channels progress = upper_channels progress /\
  (exists g b, gradient progress = Ok (255, g, b) /\
               0 <= g <= 169 /\ 0 <= b <= 100) /\
  (Py.fleb near_half progress = true -> gradient progress = Ok (255, 169, 0)).
Proof.
  intros V H0 L.
  split; [reflexivity|]. split; [reflexivity|]. split; [reflexivity|].
  split; [vm_compute; reflexivity|].
  split; [unfold gradient_channels; rewrite L; reflexivity|].
  destruct (lower_half_interval progress V H0 L) as [Hn Hle].
  pose proof (fltb_half progress V Hn) as Hlt. rewrite L in Hlt.
  destruct (gradient_top progress Hn Hle L) as (g & b & Eg & Eb & E & Rg & Rb).
  destruct (upper_facts progress V Hn Hle) as (Nt & Vt & G & B & NG & NB).
  destruct const_150 as [N150 _]. destruct const_100 as [N100 V100].
  assert (Hp : (SF2R progress <= SF2R below_half)%R).
  { destruct progress as [s|s| |[|] m e]; try contradiction.
    - simpl. apply Rlt_le, F2R_pos. lia.
    - apply below_half_val; [exact (valid_canonical _ _ _ V)|exact Hlt]. }
  assert (Hbh : (SF2R below_half <= / 2)%R).
  { pose proof (fltb_half below_half eq_refl I) as H.
    assert (Hc : Py.fltb below_half Py.lit_0_5 = true) by reflexivity.
    rewrite Hc in H. lra. }
  destruct (upper_facts below_half eq_refl I Hbh) as (Nt' & Vt' & G' & B' & NG' & NB').
  assert (Eg' : Py.int (Py.fadd (Py.of_int 20)
                          (Py.fmul (Py.fmul below_half (Py.of_int 2)) (Py.of_int 150)))
                = Ok 169) by (vm_compute; reflexivity).
  assert (Hg : g <= 169).
  { refine (int_mono _ _ g 169 NG _ Eg Eg').
    apply fadd_mono; [exact constant_20|apply G|apply G'| |exact NG|exact NG'].
    apply fmul_mono; [exact Nt|exact Nt'|exact N150| |apply G|apply G'].
    rewrite Vt, Vt'. lra. }
  split.
  - exists g, b. split; [exact E|]. lia.
  - intros Hn0.
    pose proof (fleb_val near_half progress eq_refl V I Hn Hn0) as Hq.
    assert (Hnh : (SF2R near_half <= / 2)%R) by lra.
    destruct (upper_facts near_half eq_refl I Hnh) as (Nt0 & Vt0 & G0 & B0 & NG0 & NB0).
    assert (Ht : (SF2R (Py.fmul near_half (Py.of_int 2))
                  <= SF2R (Py.fmul progress (Py.of_int 2)))%R)
      by (rewrite Vt, Vt0; lra).
    assert (Eg0 : Py.int (Py.fadd (Py.of_int 20)
                            (Py.fmul (Py.fmul near_half (Py.of_int 2)) (Py.of_int 150)))
                  = Ok 169) by (vm_compute; reflexivity).
    assert (Eb0 : Py.int (Py.fsub (Py.of_int 100)
                            (Py.fmul (Py.fmul near_half (Py.of_int 2)) (Py.of_int 100)))
                  = Ok 0) by (vm_compute; reflexivity).
    assert (Hg' : 169 <= g).
    { refine (int_mono _ _ 169 g NG0 _ Eg0 Eg).
      apply fadd_mono; [exact constant_20|apply G0|apply G| |exact NG0|exact NG].
      apply fmul_mono; [exact Nt0|exact Nt|exact N150|exact Ht|apply G0|apply G]. }
    assert (Hb' : b <= 0).
    { refine (int_mono _ _ b 0 NB _ Eb Eb0).
      apply fsub_anti; [exact constant_100|apply B0|apply B| | |exact NB0|exact NB].
      - apply fmul_mono; [exact Nt0|exact Nt|exact N100|exact Ht|apply B0|apply B].
      - rewrite V100. apply B. }
    rewrite E. replace g with 169 by lia. replace b with 0 by lia. reflexivity.
Qed.

Lemma gradient_steps_at_half_witness :
  valid below_half /\
  Py.fleb (Py.of_int 0) below_half = true /\
  Py.fltb below_half Py.lit_0_5 = true /\
  Py.fleb near_half below_half = true /\
  gradient below_half = Ok (255, 169, 0) /\
  gradient Py.lit_0_5 = Ok (255, 170, 0).
Proof.
  split; [reflexivity|]. split; [reflexivity|]. split; [reflexivity|].
  split; [reflexivity|].
  destruct (gradient_steps_at_half below_half eq_refl eq_refl eq_refl)
    as (_ & _ & _ & E & _ & _ & H).
  split; [apply H; reflexivity|exact E].
Defined.
